(** * A shallow embedding of [src/rag.ts]

    The retrieval core of the RAG utility: the similarity scorer [cosine],
    the word counter [countWords], the two content filters and the cleaning
    transform of [ingestPDF], the store reader [loadEmbeddings] and the
    ranking of [queryEmbeddings].

    JavaScript values are modelled as the language has them: a string is its
    sequence of UTF-16 code units, a number is an IEEE 754 binary64 value
    (Rocq's primitive [float]), an array is a list, an object is the ordered
    list of its properties.  The built-in operations that the program calls
    ([trim], [split] and [replace] with its three regular expressions,
    [Number], [||], [sort], [slice], [JSON.stringify]) are written out from
    the language definition.

    The PDF loader, the splitter, the embedding service and the chat model
    are functions handed to the program in a [Runtime]; each call is recorded
    in the [world], next to the files.  A file written by the program is held
    as its text together with the JSON document that the text denotes, which
    is what a later [JSON.parse] returns.  What the program prints on the
    console is left out. *)

From Stdlib Require Import String Ascii DecimalString DecimalNat.
From Stdlib Require Import ZArith NArith List Bool Lia.
From Stdlib Require Import Floats Sorted Permutation.
Import ListNotations.

Set Implicit Arguments.
Set Warnings "-register-all,-inexact-float".

(** ** Strings: sequences of UTF-16 code units *)

Module JSString.

Definition jsstring := list N.

(** An ASCII literal as a JavaScript string. *)
Definition lit (s : string) : jsstring :=
  map N_of_ascii (list_ascii_of_string s).

(** [a === b] on strings. *)
Fixpoint jsstring_eqb (a b : jsstring) : bool :=
  match a, b with
  | [], [] => true
  | x :: a', y :: b' => (x =? y)%N && jsstring_eqb a' b'
  | _, _ => false
  end.

(** The class [\s] of a regular expression, which is also the set removed
    by [String.prototype.trim]: WhiteSpace and LineTerminator. *)
Definition is_space (c : N) : bool :=
  ((9 <=? c) && (c <=? 13) || (c =? 32) || (c =? 0xA0) || (c =? 0x1680)
   || (0x2000 <=? c) && (c <=? 0x200A) || (c =? 0x2028) || (c =? 0x2029)
   || (c =? 0x202F) || (c =? 0x205F) || (c =? 0x3000) || (c =? 0xFEFF))%N.

(** The class [\n]. *)
Definition is_newline (c : N) : bool := (c =? 10)%N.

Fixpoint dropWhile (p : N -> bool) (s : jsstring) : jsstring :=
  match s with
  | [] => []
  | c :: rest => if p c then dropWhile p rest else s
  end.

Definition trimStart (s : jsstring) : jsstring := dropWhile is_space s.
Definition trimEnd (s : jsstring) : jsstring := rev (dropWhile is_space (rev s)).

(** [s.trim()] *)
Definition trim (s : jsstring) : jsstring := trimEnd (trimStart s).

Definition cons_head (c : N) (toks : list jsstring) : list jsstring :=
  match toks with
  | [] => [[c]]
  | t :: ts => (c :: t) :: ts
  end.

(** [s.split(/[p]+/)]: the separator matches a maximal run of characters of
    the class [p].  A leading or trailing run leaves an empty token, and the
    empty string splits into one empty token. *)
Fixpoint split_plus (p : N -> bool) (s : jsstring) : list jsstring :=
  match s with
  | [] => [[]]
  | c :: rest =>
      if p c then
        match rest with
        | c' :: _ => if p c' then split_plus p rest else [] :: split_plus p rest
        | [] => [[]; []]
        end
      else cons_head c (split_plus p rest)
  end.

(** [s.replace(/[p]+/g, rep)]: every maximal run of characters of the class
    [p] is replaced by [rep]. *)
Fixpoint replace_plus (p : N -> bool) (rep : jsstring) (s : jsstring) : jsstring :=
  match s with
  | [] => []
  | c :: rest =>
      if p c then
        match rest with
        | c' :: _ => if p c' then replace_plus p rep rest else rep ++ replace_plus p rep rest
        | [] => rep
        end
      else c :: replace_plus p rep rest
  end.

(** [s.replace(/[^allowed]/g, "")]: every character outside the class is
    removed. *)
Definition remove_outside (allowed : N -> bool) (s : jsstring) : jsstring :=
  filter allowed s.

(** [l.join(sep)] on an array of strings. *)
Fixpoint join (sep : jsstring) (l : list jsstring) : jsstring :=
  match l with
  | [] => []
  | [s] => s
  | s :: l' => s ++ sep ++ join sep l'
  end.

End JSString.
Import JSString.

(** ** Numbers: IEEE 754 binary64 *)

Module JSNumber.

Definition number := float.

(** [x === y] on numbers. *)
Definition strict_eq (x y : number) : bool := (x =? y)%float.

(** [x || 0] on a number: the falsy numbers are [0], [-0] and [NaN]. *)
Definition or_zero (x : number) : number :=
  if is_nan x || (x =? 0)%float then 0%float else x.

(** The number nearest to an integer (ties to even). *)
Definition of_Z (z : Z) : number := SF2Prim (binary_normalize prec emax z 0 false).
Definition of_nat (n : nat) : number := of_Z (Z.of_nat n).

Definition signed_zero (neg : bool) : number := if neg then neg_zero else zero.
Definition signed_infinity (neg : bool) : number :=
  if neg then neg_infinity else infinity.

(** *** [StringToNumber], the conversion behind [Number(s)] *)

Definition digit_of (base : N) (c : N) : option N :=
  let d := (if (48 <=? c) && (c <=? 57) then Some (c - 48)
            else if (97 <=? c) && (c <=? 102) then Some (c - 87)
            else if (65 <=? c) && (c <=? 70) then Some (c - 55)
            else None)%N in
  match d with
  | Some v => if (v <? base)%N then Some v else None
  | None => None
  end.

(** The longest prefix of digits: its value (continuing [acc]), the number
    of digits read, and the rest of the string. *)
Fixpoint read_digits (base acc : N) (n : nat) (s : jsstring) : N * nat * jsstring :=
  match s with
  | c :: rest =>
      match digit_of base c with
      | Some d => read_digits base (acc * base + d) (S n) rest
      | None => (acc, n, s)
      end
  | [] => (acc, n, s)
  end.

Definition read_sign (s : jsstring) : bool * jsstring :=
  match s with
  | 43%N :: rest => (false, rest)
  | 45%N :: rest => (true, rest)
  | _ => (false, s)
  end.

(** An optional ExponentPart that must reach the end of the string. *)
Definition read_exponent (s : jsstring) : option Z :=
  match s with
  | [] => Some 0%Z
  | c :: rest =>
      if ((c =? 101) || (c =? 69))%N then
        let '(neg, rest') := read_sign rest in
        match read_digits 10 0 0 rest' with
        | (_, O, _) => None
        | (v, _, []) => Some (if neg then Z.opp (Z.of_N v) else Z.of_N v)
        | _ => None
        end
      else None
  end.

(** The number nearest to [m * 10^e], ties to even.  The two outer tests
    only cut short values that are far beyond the largest number or far
    below the smallest one. *)
Definition decimal_value (neg : bool) (m : N) (e : Z) : number :=
  match m with
  | N0 => signed_zero neg
  | Npos p =>
      if (310 <? e)%Z then signed_infinity neg
      else if (0 <=? e)%Z then
        SF2Prim (binary_normalize prec emax (cond_Zopp neg (Z.pos p * 10 ^ e)) 0 false)
      else if (Z.log2 (Z.pos p) + 1 + 3 * e <? -1076)%Z then signed_zero neg
      else
        let '(q, e', l) := SFdiv_core_binary prec emax (Z.pos p) 0 (10 ^ (- e)) 0 in
        SF2Prim (binary_round_aux prec emax neg q e' l)
  end.

Definition StrUnsignedDecimalLiteral (neg : bool) (s : jsstring) : number :=
  if jsstring_eqb s (lit "Infinity") then signed_infinity neg
  else
    let '(ip, ni, r1) := read_digits 10 0 0 s in
    let '(fp, nf, r2) :=
      match r1 with
      | 46%N :: r => read_digits 10 ip 0 r
      | _ => (ip, O, r1)
      end in
    if Nat.eqb ni 0 && Nat.eqb nf 0 then nan
    else
      match read_exponent r2 with
      | Some e => decimal_value neg fp (e - Z.of_nat nf)
      | None => nan
      end.

(** [0x], [0o] and [0b] literals; [None] when the string has no such
    prefix. *)
Definition NonDecimalIntegerLiteral (s : jsstring) : option number :=
  match s with
  | 48%N :: c :: rest =>
      let base := (if (c =? 120) || (c =? 88) then 16
                   else if (c =? 111) || (c =? 79) then 8
                   else if (c =? 98) || (c =? 66) then 2 else 0)%N in
      if (base =? 0)%N then None
      else match read_digits base 0 0 rest with
           | (_, O, _) => Some nan
           | (v, _, []) => Some (of_Z (Z.of_N v))
           | _ => Some nan
           end
  | _ => None
  end.

Definition StringToNumber (s : jsstring) : number :=
  match trim s with
  | [] => zero
  | t =>
      match NonDecimalIntegerLiteral t with
      | Some v => v
      | None => let '(neg, r) := read_sign t in StrUnsignedDecimalLiteral neg r
      end
  end.

(** *** [ToIntegerOrInfinity], used by [Array.prototype.slice] *)

Inductive integer_or_infinity :=
| Finite (z : Z)
| PlusInfinity
| MinusInfinity.

Definition ToIntegerOrInfinity (x : number) : integer_or_infinity :=
  match Prim2SF x with
  | S754_nan | S754_zero _ => Finite 0
  | S754_infinity s => if s then MinusInfinity else PlusInfinity
  | S754_finite s m e =>
      Finite (cond_Zopp s (if (0 <=? e)%Z then Z.pos m * 2 ^ e
                           else Z.pos m / 2 ^ (- e)))
  end.

(** An array index or a length in a template literal: its decimal digits. *)
Definition nat_to_string (n : nat) : jsstring :=
  lit (NilEmpty.string_of_uint (Nat.to_uint n)).

End JSNumber.
Import JSNumber.

(** ** Values *)

Module JSValue.

Inductive jsval :=
| VUndefined
| VNull
| VBool (b : bool)
| VNumber (x : number)
| VString (s : jsstring)
| VArray (elems : list jsval)
| VObject (fields : list (jsstring * jsval)).

(** [Number(v)].  An array is converted through its string form, the join
    of its elements with a comma: the empty array gives the empty string
    and so [0]; an array of one element gives what the string form of that
    element gives; a longer one contains a comma and gives [NaN].  A number
    survives its own string form except that [-0] prints as [0].  A plain
    object prints as [[object Object]] and gives [NaN]. *)
Fixpoint ToNumber (v : jsval) : number :=
  match v with
  | VUndefined => nan
  | VNull => zero
  | VBool b => if b then one else zero
  | VNumber x => x
  | VString s => StringToNumber s
  | VArray [] => zero
  | VArray [e] =>
      match e with
      | VUndefined | VNull => zero
      | VBool _ => nan
      | VNumber x => if (x =? 0)%float then zero else x
      | VString s => StringToNumber s
      | VArray _ => ToNumber e
      | VObject _ => nan
      end
  | VArray _ => nan
  | VObject _ => nan
  end.

(** Truthiness, as [||] and [?:] test it. *)
Definition ToBoolean (v : jsval) : bool :=
  match v with
  | VUndefined | VNull => false
  | VBool b => b
  | VNumber x => negb (is_nan x || (x =? 0)%float)
  | VString s => negb (Nat.eqb (length s) 0)
  | VArray _ | VObject _ => true
  end.

Fixpoint lookup_field (k : jsstring) (fields : list (jsstring * jsval)) : jsval :=
  match fields with
  | [] => VUndefined
  | (k', v) :: rest => if jsstring_eqb k k' then v else lookup_field k rest
  end.

(** Writing a property: an existing key keeps its place. *)
Fixpoint set_field (k : jsstring) (v : jsval) (fields : list (jsstring * jsval))
  : list (jsstring * jsval) :=
  match fields with
  | [] => [(k, v)]
  | (k', v') :: rest =>
      if jsstring_eqb k k' then (k, v) :: rest else (k', v') :: set_field k v rest
  end.

(** [v.k] for one of the keys [id], [embedding], [text], [metadata],
    [source], which no prototype defines: [None] is the [TypeError] of a
    property read on [undefined] or [null]. *)
Definition get (v : jsval) (k : jsstring) : option jsval :=
  match v with
  | VUndefined | VNull => None
  | VObject fields => Some (lookup_field k fields)
  | _ => Some VUndefined
  end.

(** The own enumerable properties that an object spread [{...v}] copies. *)
Definition spread (v : jsval) : list (jsstring * jsval) :=
  match v with
  | VObject fields => fields
  | VArray elems => combine (map nat_to_string (seq 0 (length elems))) elems
  | VString s =>
      combine (map nat_to_string (seq 0 (length s))) (map (fun c => VString [c]) s)
  | _ => []
  end.

(** What [JSON.parse(JSON.stringify(v))] gives, for an array or an object
    [v] and for the values inside it: in an array [undefined] becomes
    [null]; a number that is not finite becomes [null] and [-0] becomes
    [0]; a property whose value is [undefined] is left out. *)
Fixpoint json_of (v : jsval) : jsval :=
  match v with
  | VUndefined => VNull
  | VNull => VNull
  | VBool b => VBool b
  | VNumber x =>
      if is_finite x then (if (x =? 0)%float then VNumber zero else VNumber x)
      else VNull
  | VString s => VString s
  | VArray elems => VArray (map json_of elems)
  | VObject fields =>
      VObject ((fix props (fs : list (jsstring * jsval)) :=
                  match fs with
                  | [] => []
                  | (k, VUndefined) :: rest => props rest
                  | (k, w) :: rest => (k, json_of w) :: props rest
                  end) fields)
  end.

(** *** [JSON.stringify(v, null, 2)] *)

Definition hex_digit (d : N) : N := (if d <? 10 then 48 + d else 87 + d)%N.

(** The escape [\uXXXX] of a code unit. *)
Definition unicode_escape (c : N) : jsstring :=
  [92; 117; hex_digit ((c / 4096) mod 16); hex_digit ((c / 256) mod 16);
   hex_digit ((c / 16) mod 16); hex_digit (c mod 16)]%N.

Definition is_high_surrogate (c : N) : bool := ((0xD800 <=? c) && (c <=? 0xDBFF))%N.
Definition is_low_surrogate (c : N) : bool := ((0xDC00 <=? c) && (c <=? 0xDFFF))%N.

(** The characters of a quoted string: the two-character escapes, the
    escapes of the other control characters and of the surrogates that
    stand alone, and every other character as it is. *)
Fixpoint quote_chars (s : jsstring) : jsstring :=
  match s with
  | [] => []
  | c :: rest =>
      if is_high_surrogate c then
        match rest with
        | d :: rest' =>
            if is_low_surrogate d then c :: d :: quote_chars rest'
            else unicode_escape c ++ quote_chars rest
        | [] => unicode_escape c
        end
      else if is_low_surrogate c then unicode_escape c ++ quote_chars rest
      else if (c =? 8)%N then [92; 98]%N ++ quote_chars rest
      else if (c =? 9)%N then [92; 116]%N ++ quote_chars rest
      else if (c =? 10)%N then [92; 110]%N ++ quote_chars rest
      else if (c =? 12)%N then [92; 102]%N ++ quote_chars rest
      else if (c =? 13)%N then [92; 114]%N ++ quote_chars rest
      else if (c =? 34)%N then [92; 34]%N ++ quote_chars rest
      else if (c =? 92)%N then [92; 92]%N ++ quote_chars rest
      else if (c <? 32)%N then unicode_escape c ++ quote_chars rest
      else c :: quote_chars rest
  end.

Definition quote (s : jsstring) : jsstring := [34%N] ++ quote_chars s ++ [34%N].

(** The text of an array or an object, and of the values inside it, at
    the indentation [indent], the gap being two spaces; [num] prints a
    finite number.  In an array [undefined] prints as [null]; in an object
    a property whose value is [undefined] is left out. *)
Fixpoint stringify (num : number -> jsstring) (indent : jsstring) (v : jsval) : jsstring :=
  let inner := indent ++ [32; 32]%N in
  let sep := [44; 10]%N ++ inner in
  match v with
  | VUndefined | VNull => lit "null"
  | VBool b => if b then lit "true" else lit "false"
  | VNumber x => if is_finite x then num x else lit "null"
  | VString s => quote s
  | VArray [] => lit "[]"
  | VArray elems =>
      [91; 10]%N ++ inner ++ join sep (map (stringify num inner) elems)
      ++ [10%N] ++ indent ++ [93%N]
  | VObject fields =>
      match (fix members (fs : list (jsstring * jsval)) : list jsstring :=
               match fs with
               | [] => []
               | (k, VUndefined) :: rest => members rest
               | (k, w) :: rest =>
                   (quote k ++ [58; 32]%N ++ stringify num inner w) :: members rest
               end) fields with
      | [] => lit "{}"
      | partial =>
          [123; 10]%N ++ inner ++ join sep partial ++ [10%N] ++ indent ++ [125%N]
      end
  end.

End JSValue.
Import JSValue.

(** ** Arrays *)

Module JSArray.

Section Sort.
Variable A : Type.
(** The comparator: a negative result puts its first argument first, a
    positive one its second; [NaN] counts as [0]. *)
Variable comparefn : A -> A -> number.

Fixpoint insert (x : A) (l : list A) : list A :=
  match l with
  | [] => [x]
  | y :: l' => if (0 <? comparefn x y)%float then y :: insert x l' else x :: l
  end.

(** [l.sort(comparefn)].  The language fixes the result only for a
    consistent comparator: the stable sort.  The model is the stable
    insertion sort, which moves an element behind another one only when
    the comparator puts that one first. *)
Definition sort (l : list A) : list A := fold_right insert [] l.
End Sort.

(** [l.slice(0, end)] *)
Definition slice0 (A : Type) (l : list A) (end_ : number) : list A :=
  let len := Z.of_nat (length l) in
  let final :=
    match ToIntegerOrInfinity end_ with
    | MinusInfinity => 0%Z
    | Finite z => if (z <? 0)%Z then Z.max (len + z) 0 else Z.min z len
    | PlusInfinity => len
    end in
  firstn (Z.to_nat final) l.

(** [l.map((x, i) => f(x, i))], indices counted from [i]. *)
Fixpoint mapi_from (A B : Type) (f : A -> nat -> B) (i : nat) (l : list A) : list B :=
  match l with
  | [] => []
  | x :: l' => f x i :: mapi_from f (S i) l'
  end.

Definition mapi (A B : Type) (f : A -> nat -> B) (l : list A) : list B :=
  mapi_from f 0 l.

End JSArray.
Import JSArray.

(** ** Configuration (lines 6-14) *)

Definition DEFAULT_TOP_K : number := 9%float.
Definition MIN_CONTENT_LENGTH : nat := 20.
Definition MIN_WORD_COUNT : nat := 5.

(** ** The similarity scorer (lines 17-36) *)

(** One turn of the loop, on the triple [(dot, na, nb)]. *)
Definition cosine_step (a b : list jsval) (acc : number * number * number) (i : nat)
  : number * number * number :=
  let '(dot, na, nb) := acc in
  let ai := or_zero (ToNumber (nth i a VUndefined)) in
  let bi := or_zero (ToNumber (nth i b VUndefined)) in
  ((dot + ai * bi)%float, (na + ai * ai)%float, (nb + bi * bi)%float).

Definition cosine (a b : jsval) : number :=
  match a, b with
  | VArray a, VArray b =>
      let len := Nat.min (length a) (length b) in
      if Nat.eqb len 0 then 0%float
      else
        let '(dot, na, nb) :=
          fold_left (cosine_step a b) (seq 0 len) (0%float, 0%float, 0%float) in
        if strict_eq na 0%float || strict_eq nb 0%float then 0%float
        else (dot / (sqrt na * sqrt nb))%float
  | _, _ => 0%float
  end.

(** ** The content filter and the cleaner *)

(** [text.trim().split(/\s+/).filter(word => word.length > 0).length]
    (lines 39-41) *)
Definition countWords (text : jsstring) : nat :=
  length (filter (fun word => 0 <? length word) (split_plus is_space (trim text))).

(** A page or a chunk, as the loader and the splitter produce it.  A missing
    [pageContent] is [None]. *)
Record Document := mkDocument {
  pageContent : option jsstring;
  metadata : jsval
}.

(** [doc.pageContent || ""] *)
Definition content_or_empty (pc : option jsstring) : jsstring :=
  match pc with
  | Some (c :: s) => c :: s
  | _ => []
  end.

(** The callback of the first filter, on raw pages (lines 81-85). *)
Definition page_filter (doc : Document) : bool :=
  let content := content_or_empty (pageContent doc) in
  let trimmedContent := trim content in
  (MIN_CONTENT_LENGTH <? length trimmedContent)
  && (MIN_WORD_COUNT <=? countWords trimmedContent).

(** The character class of line 123, without its negation. *)
Definition allowed (c : N) : bool :=
  ((0x20 <=? c) && (c <=? 0x7E) || (c =? 0x0A) || (c =? 0x0D)
   || (0x0600 <=? c) && (c <=? 0x06FF) || (0x0750 <=? c) && (c <=? 0x077F)
   || (0x08A0 <=? c) && (c <=? 0x08FF) || (0xFB50 <=? c) && (c <=? 0xFDFF)
   || (0xFE70 <=? c) && (c <=? 0xFEFF))%N.

(** The cleaning of one chunk text (lines 117-123). *)
Definition clean (text : jsstring) : jsstring :=
  let cleanContent :=
    trim (replace_plus is_newline [32%N] (replace_plus is_space [32%N] text)) in
  remove_outside allowed cleanContent.

(** [d.metadata?.source ?? ""] *)
Definition source_of (m : jsval) : jsval :=
  match get m (lit "source") with
  | None | Some VUndefined | Some VNull => VString []
  | Some v => v
  end.

(** [{ ...d.metadata, chunkIndex: i, source: d.metadata?.source ?? "" }] *)
Definition stamp (m : jsval) (i : nat) : jsval :=
  VObject (set_field (lit "source") (source_of m)
             (set_field (lit "chunkIndex") (VNumber (of_nat i)) (spread m))).

(** The callback of the map of lines 115-130; [None] is the [TypeError] of
    [d.pageContent.replace] on a chunk without text. *)
Definition clean_doc (d : Document) (i : nat) : option Document :=
  match pageContent d with
  | Some text => Some (mkDocument (Some (clean text)) (stamp (metadata d) i))
  | None => None
  end.

(** The callback of the second filter, on cleaned chunks (line 133). *)
Definition final_filter (doc : Document) : bool :=
  match pageContent doc with
  | Some text => (0 <? length text) && (MIN_WORD_COUNT <=? countWords text)
  | None => false
  end.

(** ** Effects: the files, the services, and failure *)

Inductive exn :=
| TypeError
| SyntaxError
| ENOENT
| Error (message : string)
| ServiceError (code : nat).

Inductive result (A : Type) :=
| Ok (a : A)
| Throw (e : exn).
Arguments Ok {A} a.
Arguments Throw {A} e.

(** A file: a text that is a JSON text, held together with the document
    that it denotes ([JSON.parse] of the text), or a text that [JSON.parse]
    rejects. *)
Inductive file :=
| JSONText (text : jsstring) (doc : jsval)
| NotJSON.

(** The calls to the services, in the order they are made. *)
Inductive event :=
| LoadPDF (pdfPath : string)
| SplitDocuments (docs : list Document)
| EmbedDocuments (texts : list jsval)
| EmbedQuery (question : jsstring)
| ChatInvoke (prompt : jsstring).

Record world := mkWorld {
  files : string -> option file;
  calls : list event
}.

(** The services and the parts of the language runtime that the program
    consumes; each answers as a function of what it is given. *)
Record Runtime := mkRuntime {
  PDFLoader_load : string -> result (list Document);
  splitDocuments : list Document -> result (list Document);
  embedDocuments : list jsval -> result (list jsval);
  embedQuery : jsstring -> result jsval;
  llm_invoke : jsstring -> result jsval;
  JSON_parse : jsstring -> result jsval;
  NumberToString : number -> jsstring;
  toFixed : number -> nat -> jsstring
}.

Definition M (A : Type) : Type := world -> result A * world.

Definition ret (A : Type) (a : A) : M A := fun w => (Ok a, w).
Definition throw (A : Type) (e : exn) : M A := fun w => (Throw e, w).
Definition bind (A B : Type) (m : M A) (k : A -> M B) : M B :=
  fun w =>
    match m w with
    | (Ok a, w') => k a w'
    | (Throw e, w') => (Throw e, w')
    end.

Notation "x <- m ;; k" := (bind m (fun x => k))
  (at level 61, m at next level, right associativity).

Definition lift (A : Type) (r : result A) : M A := fun w => (r, w).

(** A call to a service: it is recorded, then it answers or fails. *)
Definition call (A : Type) (ev : event) (r : result A) : M A :=
  fun w => (r, mkWorld (files w) (calls w ++ [ev])).

(** [JSON.stringify(v, null, 2)] *)
Definition JSON_stringify (rt : Runtime) (v : jsval) : jsstring :=
  stringify (NumberToString rt) [] v.

(** [fs.writeFileSync(path, JSON.stringify(v, null, 2), "utf-8")], for a
    path that can be written.  The text written denotes the document
    [json_of v]. *)
Definition writeFileSync (rt : Runtime) (path : string) (v : jsval) : M unit :=
  fun w =>
    (Ok tt,
     mkWorld (fun p => if String.eqb p path
                       then Some (JSONText (JSON_stringify rt v) (json_of v))
                       else files w p)
             (calls w)).

(** [JSON.parse(fs.readFileSync(path, "utf-8"))] *)
Definition readJSON (path : string) : M jsval :=
  fun w =>
    match files w path with
    | None => (Throw ENOENT, w)
    | Some NotJSON => (Throw SyntaxError, w)
    | Some (JSONText _ doc) => (Ok doc, w)
    end.

Fixpoint mapM (A B : Type) (f : A -> result B) (l : list A) : result (list B) :=
  match l with
  | [] => Ok []
  | x :: l' =>
      match f x with
      | Throw e => Throw e
      | Ok y => match mapM f l' with
                | Throw e => Throw e
                | Ok ys => Ok (y :: ys)
                end
      end
  end.

Definition of_option (A : Type) (e : exn) (o : option A) : result A :=
  match o with
  | Some a => Ok a
  | None => Throw e
  end.

Definition opt_string (o : option jsstring) : jsval :=
  match o with
  | Some s => VString s
  | None => VUndefined
  end.

(** ** Ingestion (lines 44-167) *)

(** The record of lines 154-159, for the survivor [doc] at position [index]. *)
Definition embedding_record (vectors : list jsval) (doc : Document) (index : nat) : jsval :=
  VObject [ (lit "id", VString (lit "chunk-" ++ nat_to_string index));
            (lit "text", opt_string (pageContent doc));
            (lit "embedding", nth index vectors VUndefined);
            (lit "metadata", metadata doc) ].

(** Lines 115-130: every chunk cleaned and stamped with its index. *)
Definition cleanedDocs_of (docs : list Document) : result (list Document) :=
  mapM (fun di => of_option TypeError (clean_doc (fst di) (snd di)))
       (combine docs (seq 0 (length docs))).

(** Line 133: the survivors of the second filter. *)
Definition finalDocs_of (cleanedDocs : list Document) : list Document :=
  filter final_filter cleanedDocs.

(** Line 150: the texts sent to the embedding service. *)
Definition texts_of (finalDocs : list Document) : list jsval :=
  map (fun d => opt_string (pageContent d)) finalDocs.

Definition ingestPDF (rt : Runtime) (pdfPath outputPath : string) : M unit :=
  data <- call (LoadPDF pdfPath) (PDFLoader_load rt pdfPath) ;;
  let filteredDocs := filter page_filter data in
  if Nat.eqb (length filteredDocs) 0 then writeFileSync rt outputPath (VArray [])
  else
    docs <- call (SplitDocuments filteredDocs) (splitDocuments rt filteredDocs) ;;
    if Nat.eqb (length docs) 0 then writeFileSync rt outputPath (VArray [])
    else
      cleanedDocs <- lift (cleanedDocs_of docs) ;;
      let finalDocs := finalDocs_of cleanedDocs in
      if Nat.eqb (length finalDocs) 0 then writeFileSync rt outputPath (VArray [])
      else
        let texts := texts_of finalDocs in
        vectors <- call (EmbedDocuments texts) (embedDocuments rt texts) ;;
        let embeddingsWithMetadata := mapi (embedding_record vectors) finalDocs in
        writeFileSync rt outputPath (VArray embeddingsWithMetadata).

(** ** The store reader (lines 170-189) *)

Record Item := mkItem {
  item_id : jsval;
  item_embedding : list number;
  item_text : jsval;
  item_metadata : jsval
}.

(** [(item.embedding || []).map((v) => Number(v))] *)
Definition read_embedding (e : jsval) : result (list number) :=
  if ToBoolean e then
    match e with
    | VArray elems => Ok (map ToNumber elems)
    | _ => Throw TypeError
    end
  else Ok [].

(** [typeof m === 'string' ? JSON.parse(m) : m] *)
Definition read_metadata (rt : Runtime) (m : jsval) : result jsval :=
  match m with
  | VString s => JSON_parse rt s
  | _ => Ok m
  end.

(** The callback of the map of lines 176-181. *)
Definition load_item (rt : Runtime) (item : jsval) : result Item :=
  match get item (lit "id"), get item (lit "embedding"),
        get item (lit "text"), get item (lit "metadata") with
  | Some i, Some e, Some t, Some m =>
      match read_embedding e with
      | Throw x => Throw x
      | Ok emb =>
          match read_metadata rt m with
          | Throw x => Throw x
          | Ok md => Ok (mkItem i emb t md)
          end
      end
  | _, _, _, _ => Throw TypeError
  end.

(** The items of a parsed store. *)
Definition load_items (rt : Runtime) (embeddingsData : jsval) : result (list Item) :=
  match embeddingsData with
  | VArray elems => mapM (load_item rt) elems
  | _ => Throw TypeError
  end.

Definition loadEmbeddings (rt : Runtime) (filePath : string) : M (list Item) :=
  embeddingsData <- readJSON filePath ;;
  lift (load_items rt embeddingsData).

(** ** Retrieval and answering (lines 192-272) *)

Record Sim := mkSim {
  sim_id : jsval;
  score : number;
  sim_text : jsval;
  sim_metadata : jsval
}.

(** [Number(process.env.TOP_K || DEFAULT_TOP_K)]; an unset variable is
    [None]. *)
Definition TOP_K (env_TOP_K : option jsstring) : number :=
  match env_TOP_K with
  | Some (c :: s) => StringToNumber (c :: s)
  | _ => DEFAULT_TOP_K
  end.

(** Line 211. *)
Definition validItems_of (items : list Item) : list Item :=
  filter (fun it => 0 <? length (item_embedding it)) items.

(** Lines 215-220. *)
Definition sims_of (qEmbedding : jsval) (validItems : list Item) : list Sim :=
  map (fun it =>
         mkSim (item_id it)
               (cosine qEmbedding (VArray (map VNumber (item_embedding it))))
               (item_text it) (item_metadata it))
      validItems.

(** The comparator of line 222. *)
Definition by_score (a b : Sim) : number := (score b - score a)%float.

(** Lines 222-225: the sort, then the slice. *)
Definition top_of (env_TOP_K : option jsstring) (sims : list Sim) : list Sim :=
  slice0 (sort by_score sims) (TOP_K env_TOP_K).

(** The string form of a value inside a template literal. *)
Fixpoint ToString (rt : Runtime) (v : jsval) : jsstring :=
  match v with
  | VUndefined => lit "undefined"
  | VNull => lit "null"
  | VBool b => if b then lit "true" else lit "false"
  | VNumber x => NumberToString rt x
  | VString s => s
  | VArray elems =>
      join [44%N]
           (map (fun e => match e with
                          | VUndefined | VNull => []
                          | _ => ToString rt e
                          end) elems)
  | VObject _ => lit "[object Object]"
  end.

(** The callback of the map of lines 246-248. *)
Definition context_block (rt : Runtime) (t : Sim) (i : nat) : jsstring :=
  lit "---chunk " ++ nat_to_string (i + 1) ++ lit " (id=" ++ ToString rt (sim_id t)
  ++ lit ", score=" ++ toFixed rt (score t) 4 ++ lit ")---" ++ [10%N]
  ++ ToString rt (sim_text t).

Definition context_of (rt : Runtime) (top : list Sim) : jsstring :=
  join [10%N; 10%N] (mapi (context_block rt) top).

(** The template of lines 252-260. *)
Definition prompt_of (context question : jsstring) : jsstring :=
  lit "You are a helpful assistant. Use the following context to answer the user's question thoroughly and in detail. If the answer is not contained in the context, say you don't know."
  ++ [10%N; 10%N] ++ lit "CONTEXT:" ++ [10%N] ++ context ++ [10%N; 10%N]
  ++ lit "QUESTION:" ++ [10%N] ++ question ++ [10%N; 10%N].

(** [!Array.isArray(q) || q.length === 0] *)
Definition bad_query_embedding (q : jsval) : bool :=
  match q with
  | VArray (_ :: _) => false
  | _ => true
  end.

Definition queryEmbeddings (rt : Runtime) (env_TOP_K : option jsstring)
  (question : jsstring) (embeddingsPath : string) : M unit :=
  items <- loadEmbeddings rt embeddingsPath ;;
  qEmbedding <- call (EmbedQuery question) (embedQuery rt question) ;;
  if bad_query_embedding qEmbedding
  then throw unit (Error "Failed to compute query embedding")
  else
    let validItems := validItems_of items in
    let sims := sims_of qEmbedding validItems in
    let top := top_of env_TOP_K sims in
    let context := context_of rt top in
    let prompt := prompt_of context question in
    aiMsg <- call (ChatInvoke prompt) (llm_invoke rt prompt) ;;
    ret tt.

(** ** Specification vocabulary

    The notions in which the properties below are stated.  None of them
    takes part in the program. *)

(** The words of a text: its maximal runs of characters that are not
    whitespace.  [in_word] tells whether the previous character belonged to
    a word. *)
Fixpoint count_runs (in_word : bool) (s : jsstring) : nat :=
  match s with
  | [] => 0
  | c :: rest =>
      if is_space c then count_runs false rest
      else (if in_word then 0 else 1) + count_runs true rest
  end.

Definition words (s : jsstring) : nat := count_runs false s.

Definition starts_with (p : N -> bool) (s : jsstring) : bool :=
  match s with
  | c :: _ => p c
  | [] => false
  end.

Definition ends_with (p : N -> bool) (s : jsstring) : bool := starts_with p (rev s).

(** The first replacement of the cleaner. *)
Definition collapse (s : jsstring) : jsstring := replace_plus is_space [32%N] s.

(** The allow-list of the cleaner, range by range. *)
Definition in_allow_list (c : N) : Prop :=
  (0x20 <= c <= 0x7E \/ c = 0x0A \/ c = 0x0D
   \/ 0x0600 <= c <= 0x06FF \/ 0x0750 <= c <= 0x077F \/ 0x08A0 <= c <= 0x08FF
   \/ 0xFB50 <= c <= 0xFDFF \/ 0xFE70 <= c <= 0xFEFF)%N.

(** The two halves of the UTF-16 encoding of a code point above U+FFFF. *)
Definition is_surrogate (c : N) : bool := ((0xD800 <=? c) && (c <=? 0xDFFF))%N.

(** The elements of a vector as the scorer reads them. *)
Definition coerce (l : list jsval) : list number :=
  map (fun v => or_zero (ToNumber v)) l.

Definition dot_product (xs ys : list number) : number :=
  fold_left (fun acc xy => (acc + fst xy * snd xy)%float) (combine xs ys) 0%float.

Definition norm2 (xs : list number) : number :=
  fold_left (fun acc x => (acc + x * x)%float) xs 0%float.

Definition magnitude (xs : list number) : number := sqrt (norm2 xs).

Definition is_array (v : jsval) : bool :=
  match v with
  | VArray _ => true
  | _ => false
  end.

Definition numbers (xs : list number) : jsval := VArray (map VNumber xs).


(** The order of the numbers as an order of integers: a number that is not
    [NaN] is a multiple of [2^-1074], and the infinities lie beyond all of
    them. *)
Definition SFkey (x : spec_float) : Z :=
  match x with
  | S754_zero _ => 0
  | S754_infinity s => cond_Zopp s (2 ^ 2100)
  | S754_nan => 0
  | S754_finite s m e => cond_Zopp s (Z.pos m * 2 ^ (e + 1074))
  end.

Definition fkey (x : number) : Z := SFkey (Prim2SF x).

Definition signed_nonzero (s : bool) (r : spec_float) : Prop :=
  r = S754_infinity s \/ exists m e, r = S754_finite s m e.











Definition id_of (r : jsval) : option jsval := get r (lit "id").
Definition chunk_id (i : nat) : jsval := VString (lit "chunk-" ++ nat_to_string i).


(** ** Sample inputs *)

Definition page (s : string) : Document := mkDocument (Some (lit s)) (VObject []).

Definition fragment20 : Document := page "aaaa bbbb cccc ddd e".
Definition fragment21 : Document := page "aaaa bbbb cccc dddd e".

Definition short_chunk : jsstring := lit "a b c d e".

Definition hello_raw : jsstring :=
  lit "Hello" ++ [10; 10; 32; 32]%N ++ lit "world" ++ [9; 9]%N ++ lit "!".

(** U+1F600, a surrogate pair. *)
Definition emoji : jsstring := [0xD83D; 0xDE00]%N.

Definition sim_of (name : string) (x : number) : Sim :=
  mkSim (VString (lit name)) x (VString (lit name)) VNull.

Definition three_sims : list Sim :=
  [sim_of "low" 0.1%float; sim_of "high" 0.9%float; sim_of "mid" 0.5%float].


(** A store element whose embedding holds a string that is not a number. *)
Definition item_with_text_entry : jsval :=
  VObject [ (lit "id", VString (lit "chunk-0"));
            (lit "text", VString (lit "t"));
            (lit "embedding", VArray [VString (lit "abc"); VNumber 1%float]) ].

(** A store element without embedding, with its metadata encoded twice. *)
Definition item_with_string_metadata : jsval :=
  VObject [ (lit "id", VString (lit "chunk-0"));
            (lit "text", VString (lit "t"));
            (lit "metadata", VString (lit "{}")) ].

(** Services for the examples: one page of text, cut into the chunks
    [chunks]; every text embeds to [[1, 0]]. *)
Definition demo (pages chunks : list Document) : Runtime :=
  mkRuntime (fun _ => Ok pages)
            (fun _ => Ok chunks)
            (fun texts => Ok (map (fun _ => numbers [1%float; 0%float]) texts))
            (fun _ => Ok (numbers [1%float; 0%float]))
            (fun _ => Ok (VObject [(lit "content", VString (lit "ok"))]))
            (fun s => if jsstring_eqb s (lit "{}") then Ok (VObject [])
                      else Throw SyntaxError)
            (fun _ => lit "0")
            (fun _ _ => lit "0.0000").

Definition good_page : Document := page "The quick brown fox jumps over the lazy dog.".
Definition good_chunk_1 : Document := page "The quick brown fox jumps".
Definition good_chunk_2 : Document := page "fox jumps over the lazy dog.".

(** No file at all, and no call made. *)
Definition empty_world : world := mkWorld (fun _ => None) [].


(** ** The command line (lines 275-363)

    [interactiveCLI], [main] and the run of [main] that ends the file.  The
    arguments are those that follow the name of the script; in the
    interactive mode the user answers every question that is asked. *)

(** The terminal and the file system, as the command line sees them: the
    file that a path string names, and the lines that the user types, in
    order, one for each question asked. *)
Record Terminal := mkTerminal {
  path_of : jsstring -> string;
  answer : nat -> jsstring
}.

(** How the process ends: by returning from [main], or by [process.exit]. *)
Inductive outcome :=
| Returned
| Exited (code : nat).

(** [s || "./embeddings.json"]; an argument that is not there is [None]. *)
Definition or_default (s : option jsstring) : jsstring :=
  match s with
  | Some (c :: s) => c :: s
  | _ => lit "./embeddings.json"
  end.

(** [try { await m } catch (error) { console.error(..., error) }] *)
Definition attempt (m : M unit) : M unit :=
  fun w =>
    match m w with
    | (Ok _, w') => (Ok tt, w')
    | (Throw _, w') => (Ok tt, w')
    end.

(** Lines 275-324.  The choices [3] and any other one do nothing. *)
Definition interactiveCLI (rt : Runtime) (env_TOP_K : option jsstring) (t : Terminal)
  : M unit :=
  let choice := answer t 0 in
  if jsstring_eqb (trim choice) (lit "1") then
    let pdfPath := answer t 1 in
    let outputPath := or_default (Some (answer t 2)) in
    attempt (ingestPDF rt (path_of t pdfPath) (path_of t outputPath))
  else if jsstring_eqb (trim choice) (lit "2") then
    let embeddingsPath := or_default (Some (answer t 1)) in
    let query := answer t 2 in
    attempt (queryEmbeddings rt env_TOP_K query (path_of t embeddingsPath))
  else ret tt.

(** Lines 327-355; [args] is [process.argv.slice(2)]. *)
Definition main (rt : Runtime) (env_TOP_K : option jsstring) (t : Terminal)
  (args : list jsstring) : M outcome :=
  if Nat.eqb (length args) 0 then
    _ <- interactiveCLI rt env_TOP_K t ;; ret Returned
  else if jsstring_eqb (nth 0 args []) (lit "--ingest") && (3 <=? length args) then
    let pdfPath := nth 1 args [] in
    let outputPath := nth 2 args [] in
    _ <- ingestPDF rt (path_of t pdfPath) (path_of t outputPath) ;; ret Returned
  else if jsstring_eqb (nth 0 args []) (lit "--query") && (2 <=? length args) then
    let question := nth 1 args [] in
    let embeddingsPath := or_default (nth_error args 2) in
    _ <- queryEmbeddings rt env_TOP_K question (path_of t embeddingsPath) ;; ret Returned
  else ret (Exited 1).

(** [main().catch((error) => { ...; process.exit(1) })], when the file is
    the program that is run. *)
Definition run (rt : Runtime) (env_TOP_K : option jsstring) (t : Terminal)
  (args : list jsstring) (w : world) : outcome * world :=
  match main rt env_TOP_K t args w with
  | (Ok o, w') => (o, w')
  | (Throw _, w') => (Exited 1, w')
  end.

(** ** Further vocabulary *)

(** No two adjacent whitespace characters. *)
Fixpoint no_double (s : jsstring) : bool :=
  match s with
  | [] => true
  | c :: rest => negb (is_space c && starts_with is_space rest) && no_double rest
  end.

(** A character that the cleaner can leave: allow-listed, and a space if it
    is whitespace. *)
Definition clean_char (c : N) : Prop :=
  allowed c = true /\ (is_space c = true -> c = 32%N).

(** A text in the form that the cleaner aims at. *)
Definition normal (s : jsstring) : Prop :=
  Forall clean_char s
  /\ no_double s = true
  /\ starts_with is_space s = false
  /\ ends_with is_space s = false.

(** The keys of an object, in order. *)
Definition keys (fields : list (jsstring * jsval)) : list jsstring := map fst fields.

(** The cleaned form of the chunk [d] at position [k]. *)
Definition cleaned_chunk (d : Document) (k : nat) : Document :=
  mkDocument (Some (clean (content_or_empty (pageContent d)))) (stamp (metadata d) k).

(** A chunk with a text, which the cleaner can read. *)
Definition has_text (d : Document) : Prop := pageContent d <> None.

(** The chunks that reach the store, each with its position among the
    chunks of the splitter. *)
Definition survivors (docs : list Document) : list (Document * nat) :=
  filter (fun dj => final_filter (cleaned_chunk (fst dj) (snd dj)))
         (combine docs (seq 0 (length docs))).

(** The record stored at position [k] for the chunk [d] that the splitter
    returned at position [j]. *)
Definition stored_record (vectors : list jsval) (k : nat) (d : Document) (j : nat) : jsval :=
  VObject [ (lit "id", chunk_id k);
            (lit "text", VString (clean (content_or_empty (pageContent d))));
            (lit "embedding", nth k vectors VUndefined);
            (lit "metadata", stamp (metadata d) j) ].

(** The text stored for a chunk. *)
Definition stored_text (dj : Document * nat) : jsstring :=
  clean (content_or_empty (pageContent (fst dj))).


(** A vector that the reader turns into the empty embedding. *)
Definition no_vector (v : jsval) : Prop := v = VUndefined \/ v = VNull \/ v = VArray [].




(** The two forms of the arguments that start a pipeline:
    [--ingest <pdf-path> <output-path>] *)
Definition ingest_form (args : list jsstring) : Prop :=
  exists pdfPath outputPath rest, args = lit "--ingest" :: pdfPath :: outputPath :: rest.

(** [--query <question> [embeddings-path]] *)
Definition query_form (args : list jsstring) : Prop :=
  exists question rest, args = lit "--query" :: question :: rest.

(** The end of a process whose pipeline gave [r]. *)
Definition exit_of (r : result unit) : outcome :=
  match r with
  | Ok _ => Returned
  | Throw _ => Exited 1
  end.

(** ** Further sample inputs *)

(** A text that one cleaning leaves with two adjacent spaces: the letter between the two spaces is outside the allow-list. *)
Definition accented : jsstring := lit "a " ++ [233%N] ++ lit " b".

(** A chunk whose metadata names its source and its page. *)
Definition sourced_metadata : jsval :=
  VObject [ (lit "source", VString (lit "a.pdf"));
            (lit "loc", VObject [(lit "pageNumber", VNumber 1%float)]) ].

(** A chunk without text. *)
Definition blank_chunk : Document := mkDocument None VNull.

(** The services of the examples with one page and two chunks. *)
Definition two_chunks : Runtime := demo [good_page] [good_chunk_1; good_chunk_2].


(** A terminal for the examples: a path is read as a string of bytes, and
    the user types the lines [lines]. *)
Definition typed (lines : list string) : Terminal :=
  mkTerminal (fun s => string_of_list_ascii (map ascii_of_N s))
             (fun n => lit (nth n lines EmptyString)).

(** * Lemmas *)

(** ** The order of the numbers *)

Lemma digits2_pos_bounds (m : positive) :
  (2 ^ (Z.pos (digits2_pos m) - 1) <= Z.pos m < 2 ^ Z.pos (digits2_pos m))%Z.
Proof.
  induction m as [m IH | m IH |]; simpl digits2_pos.
  - rewrite Pos2Z.inj_succ. replace (Z.succ (Z.pos (digits2_pos m)) - 1)%Z with (Z.succ (Z.pos (digits2_pos m) - 1))%Z by lia.
    rewrite !Z.pow_succ_r by lia. lia.
  - rewrite Pos2Z.inj_succ. replace (Z.succ (Z.pos (digits2_pos m)) - 1)%Z with (Z.succ (Z.pos (digits2_pos m) - 1))%Z by lia.
    rewrite !Z.pow_succ_r by lia. lia.
  - simpl. lia.
Qed.

Lemma bounded_facts m e :
  bounded prec emax m e = true ->
  (-1074 <= e <= 971 /\ Z.pos m < 2 ^ 53 /\ (-1074 < e -> 2 ^ 52 <= Z.pos m))%Z.
Proof.
  unfold bounded, canonical_mantissa, fexp, SpecFloat.emin, prec, emax.
  intros H. apply andb_true_iff in H. destruct H as [H1 H2].
  apply Z.eqb_eq in H1. apply Z.leb_le in H2.
  pose proof (digits2_pos_bounds m) as [Hlo Hhi].
  set (d := Z.pos (digits2_pos m)) in *.
  assert (Hd : (d <= 53)%Z) by lia.
  split; [lia|]. split.
  - eapply Z.lt_le_trans; [exact Hhi|]. apply Z.pow_le_mono_r; lia.
  - intros He. assert (d = 53)%Z by lia. subst d. rewrite H in Hlo. exact Hlo.
Qed.

Lemma pow2_pos k : (0 < 2 ^ k \/ k < 0)%Z.
Proof. destruct (Z.lt_ge_cases k 0); [right; lia | left; apply Z.pow_pos_nonneg; lia]. Qed.

Lemma finite_key_bounds m e :
  bounded prec emax m e = true ->
  (0 < Z.pos m * 2 ^ (e + 1074) < 2 ^ 2100)%Z.
Proof.
  intros H. apply bounded_facts in H. destruct H as (He & Hm & _).
  assert (H2 : (0 < 2 ^ (e + 1074))%Z) by (apply Z.pow_pos_nonneg; lia).
  split; [apply Z.mul_pos_pos; lia|].
  apply Z.lt_le_trans with (2 ^ 53 * 2 ^ (e + 1074))%Z.
  - apply Z.mul_lt_mono_pos_r; assumption.
  - rewrite <- Z.pow_add_r by lia. apply Z.pow_le_mono_r; lia.
Qed.

Lemma finite_key_mono m1 e1 m2 e2 :
  bounded prec emax m1 e1 = true -> bounded prec emax m2 e2 = true ->
  (e1 < e2)%Z ->
  (Z.pos m1 * 2 ^ (e1 + 1074) < Z.pos m2 * 2 ^ (e2 + 1074))%Z.
Proof.
  intros H1 H2 He.
  apply bounded_facts in H1. apply bounded_facts in H2.
  destruct H1 as (He1 & Hm1 & _). destruct H2 as (He2 & _ & Hm2).
  specialize (Hm2 ltac:(lia)).
  replace (e2 + 1074)%Z with ((e2 - e1) + (e1 + 1074))%Z by lia.
  rewrite (Z.pow_add_r 2 (e2 - e1) (e1 + 1074)) by lia.
  assert (Hc : (0 < 2 ^ (e1 + 1074))%Z) by (apply Z.pow_pos_nonneg; lia).
  assert (Hd : (2 ^ 1 <= 2 ^ (e2 - e1))%Z) by (apply Z.pow_le_mono_r; lia).
  change (2 ^ 1)%Z with 2%Z in Hd.
  change (2 ^ 53)%Z with (2 * 2 ^ 52)%Z in Hm1.
  rewrite Z.mul_assoc. apply Z.mul_lt_mono_pos_r; [exact Hc|].
  apply Z.lt_le_trans with (2 * 2 ^ 52)%Z; [exact Hm1|].
  rewrite (Z.mul_comm 2). apply Z.mul_le_mono_nonneg; lia.
Qed.

Lemma finite_key_compare m1 e1 m2 e2 :
  bounded prec emax m1 e1 = true -> bounded prec emax m2 e2 = true ->
  match (e1 ?= e2)%Z with
  | Lt => Lt
  | Gt => Gt
  | Eq => Pos.compare_cont Eq m1 m2
  end = (Z.pos m1 * 2 ^ (e1 + 1074) ?= Z.pos m2 * 2 ^ (e2 + 1074))%Z.
Proof.
  intros H1 H2. destruct (Z.compare_spec e1 e2) as [He | He | He].
  - subst e2. apply bounded_facts in H1. destruct H1 as (He1 & _).
    assert (Hc : (0 < 2 ^ (e1 + 1074))%Z) by (apply Z.pow_pos_nonneg; lia).
    change (Pos.compare_cont Eq m1 m2) with (m1 ?= m2)%positive.
    symmetry. destruct (Pos.compare_spec m1 m2) as [Hm | Hm | Hm].
    + subst m2. apply Z.compare_refl.
    + apply Z.compare_lt_iff. apply Z.mul_lt_mono_pos_r; [exact Hc | lia].
    + apply Z.compare_gt_iff. apply Z.mul_lt_mono_pos_r; [exact Hc | lia].
  - symmetry. apply Z.compare_lt_iff. now apply finite_key_mono.
  - symmetry. apply Z.compare_gt_iff. now apply finite_key_mono.
Qed.

Lemma SFcompare_key x y :
  valid_binary x = true -> valid_binary y = true ->
  x <> S754_nan -> y <> S754_nan ->
  SFcompare x y = Some (SFkey x ?= SFkey y)%Z.
Proof.
  intros Vx Vy Nx Ny.
  unfold SFkey.
  assert (Hbig : (0 < 2 ^ 2100)%Z) by (apply Z.pow_pos_nonneg; lia).
  destruct x as [sx | sx | | sx mx ex]; try congruence;
  destruct y as [sy | sy | | sy my ey]; try congruence;
  cbn [valid_binary] in Vx, Vy; cbn [SFcompare];
  try (pose proof (finite_key_bounds _ _ Vx) as Bx);
  try (pose proof (finite_key_bounds _ _ Vy) as By_);
  try (pose proof (finite_key_compare _ _ _ _ Vx Vy) as Hc);
  set (B := (2 ^ 2100)%Z) in *; clearbody B.
  all: try destruct sx; try destruct sy; cbn [cond_Zopp]; f_equal.
  all: try (symmetry;
            first [ apply Z.compare_eq_iff; lia
                  | apply Z.compare_lt_iff; lia
                  | apply Z.compare_gt_iff; lia ]; fail).
  - rewrite Z.compare_opp.
    rewrite (Z.compare_antisym (Z.pos mx * 2 ^ (ex + 1074)) (Z.pos my * 2 ^ (ey + 1074))).
    rewrite <- Hc.
    destruct (ex ?= ey)%Z; reflexivity.
  - exact Hc.
Qed.

(** Rounding a positive mantissa at an exponent that is not below the
    smallest one never gives zero. *)
Lemma shr_1_m r : (0 <= shr_m r)%Z -> shr_m (shr_1 r) = (shr_m r / 2)%Z.
Proof.
  destruct r as [m rb sb]. cbn [shr_m]. intros Hm.
  destruct m as [| p | p]; [reflexivity | | lia].
  destruct p as [p | p |]; cbn [shr_1 shr_m].
  - rewrite Pos2Z.inj_xI. apply Z.div_unique with 1%Z; lia.
  - rewrite Pos2Z.inj_xO. apply Z.div_unique with 0%Z; lia.
  - reflexivity.
Qed.

Lemma iter_shr_1_m p : forall r, (0 <= shr_m r)%Z ->
  shr_m (iter_pos shr_1 p r) = (shr_m r / 2 ^ Z.pos p)%Z.
Proof.
  induction p as [p IH | p IH |]; intros r Hr; cbn [iter_pos].
  - assert (H1 : (0 <= shr_m (shr_1 r))%Z)
      by (rewrite shr_1_m by exact Hr; apply Z.div_pos; lia).
    assert (H2 : (0 <= shr_m (iter_pos shr_1 p (shr_1 r)))%Z)
      by (rewrite IH by exact H1; apply Z.div_pos; [exact H1 | apply Z.pow_pos_nonneg; lia]).
    rewrite IH by exact H2. rewrite IH by exact H1. rewrite shr_1_m by exact Hr.
    rewrite !Z.div_div by (try apply Z.pow_pos_nonneg; lia).
    f_equal. rewrite Pos2Z.inj_xI.
    replace (2 * Z.pos p + 1)%Z with (1 + Z.pos p + Z.pos p)%Z by lia.
    rewrite !Z.pow_add_r by lia. change (2 ^ 1)%Z with 2%Z. ring.
  - assert (H2 : (0 <= shr_m (iter_pos shr_1 p r))%Z)
      by (rewrite IH by exact Hr; apply Z.div_pos; [exact Hr | apply Z.pow_pos_nonneg; lia]).
    rewrite IH by exact H2. rewrite IH by exact Hr.
    rewrite !Z.div_div by (try apply Z.pow_pos_nonneg; lia).
    f_equal. rewrite <- Z.pow_add_r by lia. f_equal. lia.
  - rewrite shr_1_m by exact Hr. reflexivity.
Qed.

Lemma shr_record_of_loc_m m l : shr_m (shr_record_of_loc m l) = m.
Proof. destruct l as [| []]; reflexivity. Qed.

Lemma shr_fexp_pos m e l :
  (0 < m)%Z -> (-1074 <= e)%Z ->
  (0 < shr_m (fst (shr_fexp prec emax m e l)) /\ -1074 <= snd (shr_fexp prec emax m e l))%Z.
Proof.
  intros Hm He. unfold shr_fexp, shr.
  destruct m as [| q | q]; try lia.
  cbn [Zdigits2].
  pose proof (digits2_pos_bounds q) as [Hlo _].
  set (d := Z.pos (digits2_pos q)) in *.
  unfold fexp, SpecFloat.emin, prec, emax.
  destruct (Z.max (d + e - 53) (3 - 1024 - 53) - e)%Z as [| p | p] eqn:Hn;
    cbn [fst snd]; try (rewrite shr_record_of_loc_m; lia).
  rewrite iter_shr_1_m by (rewrite shr_record_of_loc_m; lia).
  rewrite shr_record_of_loc_m.
  split; [| lia].
  apply Z.div_str_pos. split; [apply Z.pow_pos_nonneg; lia |].
  eapply Z.le_trans; [| exact Hlo].
  apply Z.pow_le_mono_r; lia.
Qed.

Lemma round_nearest_even_ge m l : (m <= round_nearest_even m l)%Z.
Proof.
  destruct l as [| []]; cbn [round_nearest_even]; try lia.
  destruct (Z.even m); lia.
Qed.

Lemma binary_round_aux_signed s m e l :
  (0 < m)%Z -> (-1074 <= e)%Z ->
  signed_nonzero s (binary_round_aux prec emax s m e l).
Proof.
  intros Hm He. unfold binary_round_aux.
  pose proof (shr_fexp_pos l Hm He) as [H1 H2].
  destruct (shr_fexp prec emax m e l) as [mrs' e'] eqn:E1. cbn [fst snd] in H1, H2.
  pose proof (round_nearest_even_ge (shr_m mrs') (loc_of_shr_record mrs')) as H3.
  assert (H4 : (0 < round_nearest_even (shr_m mrs') (loc_of_shr_record mrs'))%Z) by lia.
  pose proof (shr_fexp_pos loc_Exact H4 H2) as [H5 H6].
  destruct (shr_fexp prec emax _ e' loc_Exact) as [mrs'' e''] eqn:E2. cbn [fst snd] in H5, H6.
  destruct (shr_m mrs'') as [| q | q]; try lia.
  destruct (e'' <=? emax - prec)%Z; [right; eauto | left; reflexivity].
Qed.




Lemma SFeqb_refl s : s <> S754_nan -> valid_binary s = true -> SFeqb s s = true.
Proof.
  intros N V. unfold SFeqb. rewrite SFcompare_key by assumption.
  now rewrite Z.compare_refl.
Qed.

Lemma is_nan_spec x : is_nan x = true <-> Prim2SF x = S754_nan.
Proof.
  unfold is_nan. rewrite eqb_spec. split.
  - intros H. destruct (Prim2SF x) eqn:E; try reflexivity;
      rewrite SFeqb_refl in H; try discriminate; try congruence;
      rewrite <- E; apply Prim2SF_valid.
  - intros ->. reflexivity.
Qed.

Lemma not_nan_spec x : is_nan x = false -> Prim2SF x <> S754_nan.
Proof.
  intros H E. apply is_nan_spec in E. congruence.
Qed.

Lemma compare_fkey x y :
  is_nan x = false -> is_nan y = false ->
  SFcompare (Prim2SF x) (Prim2SF y) = Some (fkey x ?= fkey y)%Z.
Proof.
  intros Hx Hy. apply SFcompare_key; auto using Prim2SF_valid, not_nan_spec.
Qed.

Lemma ltb_fkey x y :
  is_nan x = false -> is_nan y = false -> (x <? y)%float = (fkey x <? fkey y)%Z.
Proof.
  intros Hx Hy. rewrite ltb_spec. unfold SFltb. rewrite compare_fkey by assumption.
  unfold Z.ltb. destruct (fkey x ?= fkey y)%Z; reflexivity.
Qed.



Lemma eqb_nan_l x y : is_nan x = true -> (x =? y)%float = false.
Proof.
  intros H. apply is_nan_spec in H. rewrite eqb_spec, H. reflexivity.
Qed.




(** A square root is zero exactly when its argument is. *)
Lemma sqrt_eqb_zero x : (sqrt x =? 0)%float = (x =? 0)%float.
Proof.
  rewrite !eqb_spec, sqrt_spec. change (Prim2SF 0) with (S754_zero false).
  pose proof (Prim2SF_valid x) as V.
  destruct (Prim2SF x) as [s | s | | s m e]; try (destruct s; reflexivity); try reflexivity.
  destruct s; [reflexivity |].
  unfold SF64sqrt, SFsqrt.
  destruct (SFsqrt_core_binary prec emax (Z.pos m) e) as [[q e'] l] eqn:E.
  cbn [valid_binary] in V. apply bounded_facts in V. destruct V as (He & _).
  unfold SFsqrt_core_binary in E. cbn [Zdigits2] in E.
  set (e0 := Z.min _ _) in E.
  assert (He0 : (-1074 <= e0 /\ 2 * e0 <= e)%Z).
  { unfold e0, fexp, SpecFloat.emin, prec, emax. rewrite !Z.div2_div.
    pose proof (Z.div_mod e 2 ltac:(lia)). pose proof (Z.mod_pos_bound e 2 ltac:(lia)). lia. }
  set (m' := match (e - 2 * e0)%Z with Z.pos _ => _ | _ => _ end) in E.
  assert (Hm' : (0 < m')%Z).
  { unfold m'. destruct (e - 2 * e0)%Z eqn:Es; try lia.
    rewrite Z.shiftl_mul_pow2 by lia.
    apply Z.mul_pos_pos; [lia | apply Z.pow_pos_nonneg; lia]. }
  assert (Hq : q = Z.sqrt m').
  { rewrite <- Z.sqrtrem_sqrt. destruct (Z.sqrtrem m'); now inversion E. }
  assert (Hq0 : (0 < q)%Z) by (rewrite Hq; now apply Z.sqrt_pos).
  assert (e' = e0) by (destruct (Z.sqrtrem m'); now inversion E). subst e'.
  destruct (@binary_round_aux_signed false q e0 l Hq0 (proj1 He0)) as [H | (m1 & e1 & H)];
    rewrite H; reflexivity.
Qed.

(** ** Words, runs and trimming *)

Section Runs.
Variable p : N -> bool.

Lemma dropWhile_split s :
  exists w, s = w ++ dropWhile p s /\ Forall (fun c => p c = true) w.
Proof.
  induction s as [| c s (w & E & F)]; cbn [dropWhile].
  - exists []. split; [reflexivity | constructor].
  - destruct (p c) eqn:Pc.
    + exists (c :: w). split; [cbn; congruence | now constructor].
    + exists []. split; [reflexivity | constructor].
Qed.

Lemma dropWhile_starts s : starts_with p (dropWhile p s) = false.
Proof.
  induction s as [| c s IH]; cbn [dropWhile]; [reflexivity |].
  destruct (p c) eqn:Pc; [exact IH | cbn; exact Pc].
Qed.

Lemma dropWhile_id s : starts_with p s = false -> dropWhile p s = s.
Proof. destruct s as [| c s]; cbn; [reflexivity | intros ->; reflexivity]. Qed.

Lemma split_plus_head s :
  exists t ts, split_plus p s = t :: ts
               /\ (0 <? length t) = starts_with (fun c => negb (p c)) s.
Proof.
  induction s as [| c s (t & ts & E & H)]; cbn [split_plus starts_with].
  - exists [], []. split; reflexivity.
  - destruct (p c) eqn:Pc; cbn [negb].
    + destruct s as [| c' s'].
      * exists [], [[]]. split; reflexivity.
      * cbn [starts_with] in H. destruct (p c') eqn:Pc'.
        -- exists t, ts. split; [exact E |]. cbn [negb] in H. exact H.
        -- exists [], (split_plus p (c' :: s')). split; reflexivity.
    + rewrite E. cbn [cons_head]. exists (c :: t), ts. split; reflexivity.
Qed.
End Runs.

Lemma count_runs_in_word s :
  count_runs false s
  = (if starts_with (fun c => negb (is_space c)) s then 1 else 0) + count_runs true s.
Proof.
  destruct s as [| c s]; cbn [count_runs starts_with]; [reflexivity |].
  destruct (is_space c); reflexivity.
Qed.

Lemma split_plus_words s :
  length (filter (fun word => 0 <? length word) (split_plus is_space s)) = words s.
Proof.
  unfold words. induction s as [| c s IH]; [reflexivity |].
  cbn [split_plus count_runs]. destruct (is_space c) eqn:Pc.
  - destruct s as [| c' s']; [reflexivity |].
    destruct (is_space c') eqn:Pc'; [exact IH |].
    cbn [filter]. change (0 <? length (@nil N)) with false. cbv iota. exact IH.
  - destruct (split_plus_head is_space s) as (t & ts & E & H).
    rewrite E in IH |- *. cbn [cons_head filter] in IH |- *.
    change (0 <? length (c :: t)) with true. cbv iota. cbn [length].
    rewrite count_runs_in_word in IH. rewrite H in IH.
    destruct (starts_with (fun c0 => negb (is_space c0)) s); cbn [length] in IH; lia.
Qed.

Lemma count_runs_skip w : forall s b,
  Forall (fun c => is_space c = true) w -> w <> [] ->
  count_runs b (w ++ s) = count_runs false s.
Proof.
  induction w as [| c w IH]; intros s b F Hne; [congruence |].
  inversion F as [| ? ? Pc F']; subst. cbn [app count_runs]. rewrite Pc.
  destruct w as [| c' w']; [reflexivity |]. apply IH; [exact F' | discriminate].
Qed.

Lemma count_runs_trailing w : forall s b,
  Forall (fun c => is_space c = true) w ->
  count_runs b (s ++ w) = count_runs b s.
Proof.
  intros s. induction s as [| c s IH]; intros b F.
  - cbn [app]. destruct w as [| c w]; [reflexivity |].
    rewrite <- (app_nil_r (c :: w)). rewrite count_runs_skip; [reflexivity | exact F | discriminate].
  - cbn [app count_runs]. destruct (is_space c); rewrite IH by exact F; reflexivity.
Qed.

Lemma words_trimStart s : words (trimStart s) = words s.
Proof.
  unfold words, trimStart.
  destruct (dropWhile_split is_space s) as (w & E & F).
  rewrite E at 2. destruct w as [| c w]; [reflexivity |].
  symmetry. apply count_runs_skip; [exact F | discriminate].
Qed.

Lemma trimEnd_split s :
  exists w, s = trimEnd s ++ w /\ Forall (fun c => is_space c = true) w.
Proof.
  unfold trimEnd. destruct (dropWhile_split is_space (rev s)) as (w & E & F).
  exists (rev w). split.
  - rewrite <- rev_app_distr, <- E, rev_involutive. reflexivity.
  - apply Forall_rev. exact F.
Qed.

Lemma words_trimEnd s : words (trimEnd s) = words s.
Proof.
  unfold words. destruct (trimEnd_split s) as (w & E & F).
  rewrite E at 2. symmetry. now apply count_runs_trailing.
Qed.

Lemma words_trim s : words (trim s) = words s.
Proof. unfold trim. now rewrite words_trimEnd, words_trimStart. Qed.

Lemma countWords_words s : countWords s = words s.
Proof. unfold countWords. now rewrite split_plus_words, words_trim. Qed.

Lemma countWords_trim s : countWords (trim s) = countWords s.
Proof. now rewrite !countWords_words, words_trim. Qed.

Lemma words_nonempty s : 0 < words s -> 0 < length s.
Proof. destruct s; cbn; lia. Qed.

Section Replace.
Variable p : N -> bool.
Variable rep : jsstring.

Lemma ends_with_cons c u : u <> [] -> ends_with p (c :: u) = ends_with p u.
Proof.
  intros Hne. unfold ends_with. cbn [rev].
  destruct (rev u) as [| n l] eqn:E; [| reflexivity].
  apply (f_equal (@rev N)) in E. rewrite rev_involutive in E. contradiction.
Qed.

Lemma replace_plus_none s :
  Forall (fun c => p c = false) s -> replace_plus p rep s = s.
Proof.
  induction 1 as [| c s Pc F IH]; [reflexivity |].
  cbn [replace_plus]. rewrite Pc, IH. reflexivity.
Qed.

Lemma replace_plus_run w : forall v,
  w <> [] -> Forall (fun c => p c = true) w -> starts_with p v = false ->
  replace_plus p rep (w ++ v) = rep ++ replace_plus p rep v.
Proof.
  induction w as [| c w IH]; intros v Hne F Hv; [congruence |].
  inversion F as [| ? ? Pc F']; subst. cbn [app replace_plus]. rewrite Pc.
  destruct w as [| c' w'].
  - cbn [app]. destruct v as [| c' v']; [cbn; now rewrite app_nil_r |].
    cbn [starts_with] in Hv. rewrite Hv. reflexivity.
  - inversion F' as [| ? ? Pc' _]; subst. cbn [app]. rewrite Pc'.
    apply (IH v); [discriminate | exact F' | exact Hv].
Qed.

Lemma replace_plus_app u : forall w v,
  w <> [] -> Forall (fun c => p c = true) w ->
  ends_with p u = false -> starts_with p v = false ->
  replace_plus p rep (u ++ w ++ v) = replace_plus p rep u ++ rep ++ replace_plus p rep v.
Proof.
  induction u as [| c u IH]; intros w v Hne F Hu Hv.
  - cbn [app replace_plus]. now apply replace_plus_run.
  - assert (Hu' : ends_with p u = false).
    { destruct u as [| c' u']; [reflexivity |].
      rewrite <- Hu. symmetry. apply ends_with_cons. discriminate. }
    specialize (IH w v Hne F Hu' Hv).
    cbn [app replace_plus]. destruct (p c) eqn:Pc.
    + destruct u as [| c' u'].
      * unfold ends_with in Hu. cbn in Hu. congruence.
      * cbn [app] in *. destruct (p c'); rewrite IH; [reflexivity |].
        now rewrite <- app_assoc.
    + rewrite IH. reflexivity.
Qed.
End Replace.

Lemma collapse_spaces s :
  Forall (fun c => is_space c = true -> c = 32%N) (collapse s).
Proof.
  unfold collapse. induction s as [| c s IH]; [constructor |].
  cbn [replace_plus]. destruct (is_space c) eqn:Pc.
  - destruct s as [| c' s']; [repeat constructor |].
    destruct (is_space c'); [exact IH |]. constructor; [reflexivity | exact IH].
  - constructor; [congruence | exact IH].
Qed.

Lemma collapse_no_newline s :
  Forall (fun c => is_newline c = false) (collapse s).
Proof.
  eapply Forall_impl; [| apply collapse_spaces].
  intros c H. unfold is_newline. destruct (N.eqb_spec c 10); [| reflexivity].
  subst c. discriminate (H eq_refl).
Qed.

Lemma second_replace_noop s :
  replace_plus is_newline [32%N] (collapse s) = collapse s.
Proof. apply replace_plus_none, collapse_no_newline. Qed.

Lemma trim_starts s : starts_with is_space (trim s) = false.
Proof.
  unfold trim. destruct (trimEnd_split (trimStart s)) as (w & E & F).
  pose proof (dropWhile_starts is_space s) as H. fold (trimStart s) in H.
  rewrite E in H. destruct (trimEnd (trimStart s)) as [| c t]; [reflexivity | exact H].
Qed.

Lemma trim_ends s : ends_with is_space (trim s) = false.
Proof.
  unfold ends_with, trim, trimEnd. rewrite rev_involutive. apply dropWhile_starts.
Qed.

Lemma trim_split s :
  exists w1 w2, s = w1 ++ trim s ++ w2
                /\ Forall (fun c => is_space c = true) w1
                /\ Forall (fun c => is_space c = true) w2.
Proof.
  destruct (dropWhile_split is_space s) as (w1 & E1 & F1).
  destruct (trimEnd_split (trimStart s)) as (w2 & E2 & F2).
  exists w1, w2. repeat split; try assumption.
  unfold trim. rewrite <- E2. exact E1.
Qed.

Lemma trim_id s :
  starts_with is_space s = false -> ends_with is_space s = false -> trim s = s.
Proof.
  intros H1 H2. unfold trim, trimStart, trimEnd.
  rewrite (dropWhile_id is_space s H1).
  rewrite (dropWhile_id is_space (rev s) H2). apply rev_involutive.
Qed.

Lemma clean_eq s : clean s = remove_outside allowed (trim (collapse s)).
Proof. unfold clean. fold (collapse s). now rewrite second_replace_noop. Qed.

Lemma clean_allowed s : Forall (fun c => allowed c = true) (clean s).
Proof.
  rewrite clean_eq. unfold remove_outside. apply Forall_forall.
  intros c H. apply filter_In in H. tauto.
Qed.

(** ** The loop of the scorer *)

Lemma firstn_nth_seq (A : Type) (d : A) (l : list A) : forall n,
  n <= length l -> firstn n l = map (fun i => nth i l d) (seq 0 n).
Proof.
  induction l as [| x l IH]; intros n Hn.
  - cbn in Hn. replace n with 0 by lia. reflexivity.
  - destruct n as [| n]; [reflexivity |].
    cbn [firstn seq map nth]. f_equal.
    rewrite <- seq_shift, map_map. cbn [nth]. apply IH. cbn in Hn. lia.
Qed.

Lemma cosine_loop_fold (a b : list jsval) (l : list nat) : forall acc,
  fold_left (cosine_step a b) l acc
  = fold_left (fun acc xy =>
                 let '(dot, na, nb) := acc in
                 ((dot + fst xy * snd xy)%float, (na + fst xy * fst xy)%float,
                  (nb + snd xy * snd xy)%float))
      (map (fun i => (or_zero (ToNumber (nth i a VUndefined)),
                      or_zero (ToNumber (nth i b VUndefined)))) l) acc.
Proof.
  induction l as [| i l IH]; intros acc; [reflexivity |].
  cbn [fold_left map]. rewrite IH. reflexivity.
Qed.

Lemma triple_fold (ps : list (number * number)) : forall dot na nb,
  fold_left (fun acc xy =>
               let '(dot, na, nb) := acc in
               ((dot + fst xy * snd xy)%float, (na + fst xy * fst xy)%float,
                (nb + snd xy * snd xy)%float)) ps (dot, na, nb)
  = (fold_left (fun acc xy => (acc + fst xy * snd xy)%float) ps dot,
     fold_left (fun acc x => (acc + x * x)%float) (map fst ps) na,
     fold_left (fun acc x => (acc + x * x)%float) (map snd ps) nb).
Proof.
  induction ps as [| p ps IH]; intros dot na nb; [reflexivity |].
  cbn [fold_left map]. apply IH.
Qed.

Lemma map_fst_combine (A B : Type) (l : list A) : forall (l' : list B),
  map fst (combine l l') = firstn (Nat.min (length l) (length l')) l.
Proof.
  induction l as [| x l IH]; intros [| y l']; cbn; try reflexivity.
  f_equal. apply IH.
Qed.

Lemma map_snd_combine (A B : Type) (l : list A) : forall (l' : list B),
  map snd (combine l l') = firstn (Nat.min (length l) (length l')) l'.
Proof.
  induction l as [| x l IH]; intros [| y l']; cbn; try reflexivity.
  f_equal. apply IH.
Qed.

Lemma cosine_loop_spec (la lb : list jsval) :
  let len := Nat.min (length la) (length lb) in
  let xs := firstn len (coerce la) in
  let ys := firstn len (coerce lb) in
  fold_left (cosine_step la lb) (seq 0 len) (0%float, 0%float, 0%float)
  = (dot_product xs ys, norm2 xs, norm2 ys).
Proof.
  intros len xs ys. rewrite cosine_loop_fold.
  assert (E : map (fun i => (or_zero (ToNumber (nth i la VUndefined)),
                             or_zero (ToNumber (nth i lb VUndefined)))) (seq 0 len)
              = combine xs ys).
  { unfold xs, ys, coerce. rewrite !firstn_map.
    rewrite (@firstn_nth_seq _ VUndefined la len) by (unfold len; lia).
    rewrite (@firstn_nth_seq _ VUndefined lb len) by (unfold len; lia).
    rewrite !map_map. generalize (seq 0 len). intros l.
    induction l as [| i l IH]; [reflexivity | cbn; now rewrite IH]. }
  rewrite E, triple_fold. unfold dot_product, norm2.
  rewrite map_fst_combine, map_snd_combine.
  assert (Lx : length xs = len) by (unfold xs, coerce; rewrite length_firstn, length_map; unfold len; lia).
  assert (Ly : length ys = len) by (unfold ys, coerce; rewrite length_firstn, length_map; unfold len; lia).
  rewrite Lx, Ly, Nat.min_id.
  rewrite <- Lx at 1. rewrite firstn_all. rewrite <- Ly at 1. now rewrite firstn_all.
Qed.

Lemma or_zero_nan x : is_nan x = true -> or_zero x = 0%float.
Proof. unfold or_zero. intros ->. reflexivity. Qed.

Lemma cosine_arrays la lb :
  let len := Nat.min (length la) (length lb) in
  let xs := firstn len (coerce la) in
  let ys := firstn len (coerce lb) in
  cosine (VArray la) (VArray lb)
  = if Nat.eqb len 0 then 0%float
    else if (magnitude xs =? 0)%float || (magnitude ys =? 0)%float then 0%float
         else (dot_product xs ys / (magnitude xs * magnitude ys))%float.
Proof.
  intros len xs ys. unfold cosine. fold len.
  destruct (Nat.eqb len 0); [reflexivity |].
  pose proof (cosine_loop_spec la lb) as H. cbv zeta in H.
  fold len in H. fold xs ys in H. rewrite H.
  unfold strict_eq, magnitude. rewrite !sqrt_eqb_zero. reflexivity.
Qed.

(** ** Sorting and slicing *)

Section SortAny.
Variable A : Type.
Variable cmp : A -> A -> number.

Lemma insert_perm x l : Permutation (x :: l) (insert cmp x l).
Proof.
  induction l as [| y l IH]; cbn [insert]; [reflexivity |].
  destruct (0 <? cmp x y)%float; [| reflexivity].
  rewrite perm_swap. now apply perm_skip.
Qed.

Lemma sort_perm l : Permutation l (sort cmp l).
Proof.
  induction l as [| x l IH]; cbn [sort fold_right]; [reflexivity |].
  rewrite <- insert_perm. now apply perm_skip.
Qed.

Lemma sort_length l : length (sort cmp l) = length l.
Proof. symmetry. apply Permutation_length, sort_perm. Qed.
End SortAny.
















(** ** The store and the two pipelines *)

Lemma lit_inj s t : lit s = lit t -> s = t.
Proof.
  unfold lit. intros H.
  rewrite <- (string_of_list_ascii_of_string s), <- (string_of_list_ascii_of_string t).
  f_equal. revert H. generalize (list_ascii_of_string s) (list_ascii_of_string t).
  induction l as [| a l IH]; intros [| b l'] H; cbn in H; try discriminate; [reflexivity |].
  inversion H as [[Hab Hl]]. f_equal; [| now apply IH].
  rewrite <- (ascii_N_embedding a), <- (ascii_N_embedding b). now rewrite Hab.
Qed.

Lemma nat_to_string_inj i j : nat_to_string i = nat_to_string j -> i = j.
Proof.
  unfold nat_to_string. intros H. apply lit_inj in H.
  apply DecimalNat.Unsigned.to_uint_inj.
  assert (E : Some (Nat.to_uint i) = Some (Nat.to_uint j))
    by (rewrite <- !NilEmpty.usu; now rewrite H).
  now inversion E.
Qed.

Lemma chunk_id_inj i j : chunk_id i = chunk_id j -> i = j.
Proof.
  unfold chunk_id. intros H.
  assert (E : lit "chunk-" ++ nat_to_string i = lit "chunk-" ++ nat_to_string j)
    by congruence.
  apply app_inv_head in E. now apply nat_to_string_inj.
Qed.

Lemma mapi_from_length (A B : Type) (f : A -> nat -> B) l : forall i,
  length (mapi_from f i l) = length l.
Proof. induction l as [| x l IH]; intros i; cbn; [reflexivity | now rewrite IH]. Qed.

Lemma jsstring_eqb_refl a : jsstring_eqb a a = true.
Proof. induction a as [| c a IH]; cbn; [reflexivity | now rewrite N.eqb_refl, IH]. Qed.

Lemma id_of_record vectors doc i :
  id_of (json_of (embedding_record vectors doc i)) = Some (chunk_id i).
Proof.
  unfold id_of, embedding_record, chunk_id. cbn [json_of get lookup_field].
  now rewrite jsstring_eqb_refl.
Qed.

Lemma ids_of_records vectors finalDocs : forall i,
  map id_of (map json_of (mapi_from (embedding_record vectors) i finalDocs))
  = map (fun j => Some (chunk_id j)) (seq i (length finalDocs)).
Proof.
  induction finalDocs as [| d l IH]; intros i; [reflexivity |].
  cbn [mapi_from map length seq]. rewrite id_of_record. f_equal. apply IH.
Qed.

Lemma NoDup_map_injective (A B : Type) (f : A -> B) (l : list A) :
  (forall a b, f a = f b -> a = b) -> NoDup l -> NoDup (map f l).
Proof.
  intros Hf. induction 1 as [| x l Hx _ IH]; cbn [map]; constructor; [| exact IH].
  intros Hin. apply in_map_iff in Hin. destruct Hin as (y & E & Hy).
  apply Hf in E. now subst y.
Qed.

Lemma chunk_ids_NoDup i n : NoDup (map (fun j => Some (chunk_id j)) (seq i n)).
Proof.
  apply NoDup_map_injective; [| apply seq_NoDup].
  intros a b H. apply chunk_id_inj. congruence.
Qed.

(** A run that ends with the write of [v]: the file is there. *)
Ltac written :=
  try (eexists; split; [reflexivity |]);
  cbn [files writeFileSync snd]; rewrite String.eqb_refl; reflexivity.

Ltac run_written H :=
  unfold writeFileSync in H; inversion H; subst; written.


(** Every successful run leaves a store that is empty or holds the records
    of the survivors, in order. *)
Lemma ingest_success rt pdfPath outputPath w w' :
  ingestPDF rt pdfPath outputPath w = (Ok tt, w') ->
  files w' outputPath = Some (JSONText (lit "[]") (VArray []))
  \/ exists data docs cleanedDocs vectors,
       PDFLoader_load rt pdfPath = Ok data
       /\ splitDocuments rt (filter page_filter data) = Ok docs
       /\ cleanedDocs_of docs = Ok cleanedDocs
       /\ embedDocuments rt (texts_of (finalDocs_of cleanedDocs)) = Ok vectors
       /\ files w' outputPath
          = Some (JSONText
                    (JSON_stringify rt
                       (VArray (mapi (embedding_record vectors) (finalDocs_of cleanedDocs))))
                    (VArray (map json_of
                       (mapi (embedding_record vectors) (finalDocs_of cleanedDocs))))).
Proof.
  unfold ingestPDF, bind, call, lift. intros H.
  destruct (PDFLoader_load rt pdfPath) as [data | e] eqn:Hload; [| discriminate].
  destruct (Nat.eqb (length (filter page_filter data)) 0) eqn:E1;
    [left; run_written H |].
  destruct (splitDocuments rt (filter page_filter data)) as [docs | e] eqn:Hsplit;
    [| discriminate].
  destruct (Nat.eqb (length docs) 0) eqn:E2; [left; run_written H |].
  destruct (cleanedDocs_of docs) as [cleaned | e] eqn:Hclean; [| discriminate].
  destruct (Nat.eqb (length (finalDocs_of cleaned)) 0) eqn:E3; [left; run_written H |].
  destruct (embedDocuments rt (texts_of (finalDocs_of cleaned))) as [vectors | e] eqn:Hemb;
    [| discriminate].
  right. exists data, docs, cleaned, vectors. repeat split; try assumption.
  run_written H.
Qed.






Lemma coerce_loaded elems :
  map (fun v => or_zero (ToNumber v)) (map VNumber (map ToNumber elems))
  = map (fun v => or_zero (ToNumber v)) elems.
Proof. rewrite !map_map. reflexivity. Qed.


(** * The properties *)

(** ** The content filter *)

(** C7: the page-level filter is strict on length and not strict on words.
    A fragment whose trimmed text has exactly 20 characters and 5 words is
    rejected, one with 21 trimmed characters and 5 words is kept; in general
    a page is kept exactly when its trimmed text is longer than 20 characters
    and has at least 5 words.  The word count of the code is the number of
    maximal runs of characters that are not whitespace: splitting on runs of
    whitespace and discarding the empty tokens. *)
Theorem page_filter_boundary (doc : Document) :
  let content := content_or_empty (pageContent doc) in
  let text := trim content in
  countWords text = words content
  /\ (length text = 20 -> words content = 5 -> page_filter doc = false)
  /\ (length text = 21 -> words content = 5 -> page_filter doc = true)
  /\ (page_filter doc = true <-> 20 < length text /\ 5 <= words content).
Proof.
  intros content text.
  assert (W : countWords text = words content)
    by (unfold text; now rewrite countWords_trim, countWords_words).
  unfold page_filter. fold content. fold text. rewrite W.
  unfold MIN_CONTENT_LENGTH, MIN_WORD_COUNT.
  split; [reflexivity |]. split; [| split].
  - intros L _. rewrite L. reflexivity.
  - intros L Hw. rewrite L, Hw. reflexivity.
  - rewrite andb_true_iff, Nat.ltb_lt, Nat.leb_le. tauto.
Qed.

Lemma page_filter_boundary_witness :
  page_filter fragment20 = false /\ page_filter fragment21 = true.
Proof.
  split.
  - apply (proj1 (proj2 (page_filter_boundary fragment20))); reflexivity.
  - apply (proj1 (proj2 (proj2 (page_filter_boundary fragment21)))); reflexivity.
Defined.

(** C1, as stated, fails: the cleaned chunk [a b c d e] has 9 characters and
    5 words; the second pass keeps it, the page-level predicate does not
    hold of it. *)
Lemma final_filter_counterexample :
  clean short_chunk = short_chunk
  /\ final_filter (mkDocument (Some (clean short_chunk)) VNull) = true
  /\ ~ (20 < length (trim (clean short_chunk)) /\ 5 <= countWords (clean short_chunk)).
Proof.
  split; [reflexivity |]. split; [reflexivity |].
  intros [H _]. vm_compute in H. lia.
Qed.

(** C1, amended: the second pass, on the cleaned chunks, keeps a chunk
    exactly when its text is not empty and has at least 5 words, which is
    exactly when it has at least 5 words; no minimum of 20 characters applies
    there.  A chunk that satisfies the page-level predicate is kept. *)
Theorem final_filter_spec (text : jsstring) (m : jsval) :
  let doc := mkDocument (Some text) m in
  (final_filter doc = true <-> 0 < length text /\ 5 <= words text)
  /\ (final_filter doc = true <-> 5 <= words text)
  /\ (20 < length (trim text) /\ 5 <= words text -> final_filter doc = true).
Proof.
  cbv zeta. unfold final_filter. cbn [pageContent].
  rewrite countWords_words. unfold MIN_WORD_COUNT.
  rewrite andb_true_iff, Nat.ltb_lt, Nat.leb_le.
  assert (H : 5 <= words text -> 0 < length text)
    by (intros H; apply words_nonempty; lia).
  tauto.
Qed.

Lemma final_filter_spec_witness :
  final_filter (mkDocument (Some short_chunk) VNull) = true.
Proof.
  apply (proj2 (proj1 (final_filter_spec short_chunk VNull))).
  split; vm_compute; lia.
Defined.

(** ** The cleaner *)

Lemma allowed_iff (c : N) : allowed c = true <-> in_allow_list c.
Proof.
  unfold allowed, in_allow_list.
  rewrite ?orb_true_iff, ?andb_true_iff, ?N.leb_le, ?N.eqb_eq. tauto.
Qed.

Lemma surrogate_not_allowed (c : N) : is_surrogate c = true -> allowed c = false.
Proof.
  unfold is_surrogate. rewrite andb_true_iff, !N.leb_le. intros [H1 H2].
  destruct (allowed c) eqn:E; [| reflexivity].
  apply allowed_iff in E. unfold in_allow_list in E. lia.
Qed.

(** C8: the cleaning transform.  It replaces every maximal run of whitespace,
    newlines included, by one space ([collapse]: a text without whitespace is
    left as it is, and a run between two texts becomes one space between
    their images); the second replacement of the code then finds no newline
    left; it trims the whitespace at both ends; and it removes, in place,
    every character outside the allow-list (printable ASCII, LF, CR and the
    five Arabic-script ranges), so that only allow-listed characters remain.
    [Hello\n\n  world\t\t!] cleans to [Hello world !], and both halves of an
    emoji are removed. *)
Theorem clean_spec (s : jsstring) :
  clean s = remove_outside allowed (trim (collapse s))
  /\ (forall u w v,
        w <> [] -> Forall (fun c => is_space c = true) w ->
        ends_with is_space u = false -> starts_with is_space v = false ->
        collapse (u ++ w ++ v) = collapse u ++ [32%N] ++ collapse v)
  /\ (forall t, Forall (fun c => is_space c = false) t -> collapse t = t)
  /\ (is_space 10 = true /\ is_space 13 = true /\ is_space 9 = true /\ is_space 32 = true)
  /\ (forall t,
        starts_with is_space (trim t) = false
        /\ ends_with is_space (trim t) = false
        /\ exists w1 w2, t = w1 ++ trim t ++ w2
                         /\ Forall (fun c => is_space c = true) w1
                         /\ Forall (fun c => is_space c = true) w2)
  /\ (forall c, allowed c = true <-> in_allow_list c)
  /\ (forall u v, remove_outside allowed (u ++ v)
                  = remove_outside allowed u ++ remove_outside allowed v)
  /\ (forall c, in_allow_list c -> remove_outside allowed [c] = [c])
  /\ (forall c, ~ in_allow_list c -> remove_outside allowed [c] = [])
  /\ Forall in_allow_list (clean s)
  /\ Forall (fun c => is_surrogate c = false) (clean s)
  /\ clean hello_raw = lit "Hello world !"
  /\ clean (lit "a" ++ emoji ++ lit "b") = lit "ab".
Proof.
  split; [apply clean_eq |].
  split; [intros u w v; unfold collapse; apply replace_plus_app |].
  split; [intros t; unfold collapse; apply replace_plus_none |].
  split; [repeat split |].
  split; [intros t; split; [apply trim_starts | split; [apply trim_ends | apply trim_split]] |].
  split; [apply allowed_iff |].
  split; [intros u v; apply filter_app |].
  split.
  { intros c H. apply allowed_iff in H. unfold remove_outside. cbn [filter]. now rewrite H. }
  split.
  { intros c H. unfold remove_outside. cbn [filter].
    destruct (allowed c) eqn:E; [| reflexivity]. apply allowed_iff in E. contradiction. }
  split.
  { eapply Forall_impl; [| apply clean_allowed]. intros c. apply allowed_iff. }
  split.
  { eapply Forall_impl; [| apply clean_allowed]. intros c H.
    destruct (is_surrogate c) eqn:E; [| reflexivity].
    apply surrogate_not_allowed in E. congruence. }
  split; reflexivity.
Qed.

Lemma clean_spec_witness :
  collapse (lit "Hello" ++ [10; 10; 32; 32]%N ++ lit "world")
  = collapse (lit "Hello") ++ [32%N] ++ collapse (lit "world")
  /\ collapse (lit "Hello") = lit "Hello"
  /\ remove_outside allowed [33%N] = [33%N]
  /\ remove_outside allowed [0xD83D%N] = [].
Proof.
  pose proof (clean_spec []) as (_ & Hrun & Hid & _ & _ & _ & _ & Hkeep & Hdrop & _).
  split; [| split; [| split]].
  - apply Hrun; [discriminate | repeat constructor | reflexivity | reflexivity].
  - apply Hid. repeat constructor.
  - apply Hkeep. unfold in_allow_list. lia.
  - apply Hdrop. unfold in_allow_list. lia.
Defined.

(** ** The similarity scorer *)

(** C3: [cosine(a, b)] is 0 when an input is not an array, when one is
    empty, and when a magnitude, taken over the common prefix, is exactly 0
    (which is when the sum of squares that the code tests is 0); otherwise it
    is the dot product over the product of the magnitudes, all three taken
    over the first [min(a.length, b.length)] elements, an element that is not
    a number counting as 0.  The elements beyond the shorter length are
    ignored: [cosine([1,0,0],[1,0]) = cosine([1,0],[1,0]) = 1]. *)
Theorem cosine_spec (a b : jsval) :
  (is_array a = false \/ is_array b = false -> cosine a b = 0%float)
  /\ (forall la lb : list jsval,
        let len := Nat.min (length la) (length lb) in
        let xs := firstn len (coerce la) in
        let ys := firstn len (coerce lb) in
        (la = [] \/ lb = [] -> cosine (VArray la) (VArray lb) = 0%float)
        /\ (la <> [] -> lb <> [] ->
            (magnitude xs =? 0)%float = true \/ (magnitude ys =? 0)%float = true ->
            cosine (VArray la) (VArray lb) = 0%float)
        /\ (la <> [] -> lb <> [] ->
            (magnitude xs =? 0)%float = false -> (magnitude ys =? 0)%float = false ->
            cosine (VArray la) (VArray lb)
            = (dot_product xs ys / (magnitude xs * magnitude ys))%float)
        /\ (magnitude xs =? 0)%float = (norm2 xs =? 0)%float
        /\ cosine (VArray la) (VArray lb)
           = cosine (VArray (firstn len la)) (VArray (firstn len lb)))
  /\ (forall v, is_nan (ToNumber v) = true -> coerce [v] = [0%float])
  /\ cosine (numbers [1; 0; 0]%float) (numbers [1; 0]%float)
     = cosine (numbers [1; 0]%float) (numbers [1; 0]%float)
  /\ cosine (numbers [1; 0]%float) (numbers [1; 0]%float) = 1%float.
Proof.
  split.
  { intros [H | H]; destruct a; try discriminate H; try reflexivity;
      destruct b; try discriminate H; reflexivity. }
  split.
  { intros la lb len xs ys.
    pose proof (cosine_arrays la lb) as E. cbv zeta in E. fold len in E. fold xs ys in E.
    assert (L0 : la = [] \/ lb = [] -> Nat.eqb len 0 = true).
    { intros [-> | ->]; unfold len; cbn [length]; [reflexivity |].
      now rewrite Nat.min_0_r. }
    assert (L1 : la <> [] -> lb <> [] -> Nat.eqb len 0 = false).
    { intros Ha Hb. apply Nat.eqb_neq. unfold len.
      destruct la; [congruence |]. destruct lb; [congruence |]. cbn. lia. }
    split; [intros H; now rewrite E, (L0 H) |].
    split.
    { intros Ha Hb H. rewrite E, (L1 Ha Hb).
      destruct H as [-> | ->]; [reflexivity | now rewrite orb_true_r]. }
    split; [intros Ha Hb Hx Hy; now rewrite E, (L1 Ha Hb), Hx, Hy |].
    split; [apply sqrt_eqb_zero |].
    rewrite E. rewrite (cosine_arrays (firstn len la) (firstn len lb)). cbv zeta.
    assert (La : length (firstn len la) = len) by (rewrite length_firstn; unfold len; lia).
    assert (Lb : length (firstn len lb) = len) by (rewrite length_firstn; unfold len; lia).
    rewrite La, Lb, Nat.min_id.
    unfold xs, ys, coerce. rewrite <- !firstn_map, !firstn_firstn, Nat.min_id.
    reflexivity. }
  split.
  { intros v H. unfold coerce. cbn [map]. now rewrite or_zero_nan. }
  split; reflexivity.
Qed.

Lemma cosine_spec_witness :
  cosine VNull (numbers [1%float]) = 0%float
  /\ cosine (numbers []) (numbers [1; 2]%float) = 0%float
  /\ cosine (numbers [0; 0]%float) (numbers [1; 2]%float) = 0%float
  /\ cosine (numbers [3; 4]%float) (numbers [4; 3; 7]%float) = (24 / (5 * 5))%float
  /\ coerce [VString (lit "abc")] = [0%float].
Proof.
  split; [apply (proj1 (cosine_spec VNull (numbers [1%float]))); left; reflexivity |].
  pose proof (proj1 (proj2 (cosine_spec VNull VNull))) as H.
  split; [apply (proj1 (H [] (map VNumber [1; 2]%float))); left; reflexivity |].
  split.
  { apply (proj1 (proj2 (H (map VNumber [0; 0]%float) (map VNumber [1; 2]%float))));
      [discriminate | discriminate | left; reflexivity]. }
  split.
  { apply (proj1 (proj2 (proj2 (H (map VNumber [3; 4]%float) (map VNumber [4; 3; 7]%float)))));
      [discriminate | discriminate | reflexivity | reflexivity]. }
  apply (proj1 (proj2 (proj2 (cosine_spec VNull VNull)))). reflexivity.
Defined.

(** ** The store reader *)

Lemma cosine_loaded (q : jsval) (elems : list jsval) :
  cosine q (numbers (map ToNumber elems)) = cosine q (VArray elems).
Proof.
  destruct q as [| | | | | lq |]; try reflexivity.
  unfold numbers.
  rewrite (cosine_arrays lq (map VNumber (map ToNumber elems))), (cosine_arrays lq elems).
  cbv zeta. rewrite !length_map.
  assert (C : coerce (map VNumber (map ToNumber elems)) = coerce elems)
    by apply coerce_loaded.
  now rewrite C.
Qed.

(** C2, as stated, fails: in a store element whose embedding is
    [["abc", 1]], the reader turns the entry ["abc"] into [NaN], not into
    0. *)
Lemma load_item_counterexample :
  exists it, load_item (demo [] []) item_with_text_entry = Ok it
             /\ map is_nan (item_embedding it) = [true; false]
             /\ map (fun x => (x =? 0)%float) (item_embedding it) = [false; false].
Proof.
  eexists. split; [reflexivity |]. split; reflexivity.
Qed.

(** C2, amended: for a store element that is an object, the reader converts
    every entry of the [embedding] array with [Number], so that an entry
    that is not numeric becomes [NaN] (and not 0: it is the scorer that
    later reads a [NaN] entry as 0, so the scores are those of the raw
    entries); it takes the empty sequence when the field is absent; and when
    [metadata] is a string it returns the result of parsing that string as
    JSON, any other metadata being returned as it is. *)
Theorem load_item_spec (rt : Runtime) (fields : list (jsstring * jsval)) (it : Item) :
  load_item rt (VObject fields) = Ok it ->
  let e := lookup_field (lit "embedding") fields in
  let m := lookup_field (lit "metadata") fields in
  (forall elems, e = VArray elems ->
     item_embedding it = map ToNumber elems
     /\ coerce (map VNumber (item_embedding it)) = coerce elems
     /\ forall q, cosine q (numbers (item_embedding it)) = cosine q (VArray elems))
  /\ (e = VUndefined -> item_embedding it = [])
  /\ (forall s, m = VString s -> JSON_parse rt s = Ok (item_metadata it))
  /\ ((forall s, m <> VString s) -> item_metadata it = m)
  /\ item_id it = lookup_field (lit "id") fields
  /\ item_text it = lookup_field (lit "text") fields.
Proof.
  intros H e m. unfold load_item in H. cbn [get] in H. fold e m in H.
  destruct (read_embedding e) as [emb |] eqn:He; [| discriminate].
  destruct (read_metadata rt m) as [md |] eqn:Hm; [| discriminate].
  inversion H; subst it; clear H. cbn [item_embedding item_metadata item_id item_text].
  split.
  { intros elems E. rewrite E in He. cbn in He. inversion He; subst emb.
    split; [reflexivity |]. split; [apply coerce_loaded | intros q; apply cosine_loaded]. }
  split.
  { intros E. rewrite E in He. cbn in He. now inversion He. }
  split.
  { intros s E. rewrite E in Hm. exact Hm. }
  split; [| split; reflexivity].
  intros N. destruct m; cbn in Hm; try (now inversion Hm).
  now destruct (N s).
Qed.

Lemma load_item_spec_witness :
  exists it, load_item (demo [] []) item_with_string_metadata = Ok it
             /\ item_embedding it = []
             /\ JSON_parse (demo [] []) (lit "{}") = Ok (item_metadata it).
Proof.
  exists (mkItem (VString (lit "chunk-0")) [] (VString (lit "t")) (VObject [])).
  assert (H : load_item (demo [] []) item_with_string_metadata
              = Ok (mkItem (VString (lit "chunk-0")) [] (VString (lit "t")) (VObject [])))
    by reflexivity.
  pose proof (load_item_spec (demo [] []) _ H) as (_ & Habsent & Hparse & _).
  split; [exact H |]. split; [apply Habsent; reflexivity | apply (Hparse (lit "{}")); reflexivity].
Defined.



(** ** Ingestion *)



Lemma mapi_from_nth_error (A B : Type) (f : A -> nat -> B) (l : list A) :
  forall i k x, nth_error l k = Some x -> nth_error (mapi_from f i l) k = Some (f x (i + k)).
Proof.
  induction l as [| y l IH]; intros i k x H; destruct k as [| k]; cbn in H; try discriminate.
  - inversion H; subst. cbn. now rewrite Nat.add_0_r.
  - cbn [mapi_from nth_error]. rewrite (IH (S i) k x H). f_equal. f_equal. lia.
Qed.

(** C9: the ids of a store.  After every successful ingestion the output
    file holds an array of N records whose ids are [chunk-0] to
    [chunk-(N-1)], in this order, hence all different.  The store is empty,
    or its records are those of the survivors of the second filter, in
    their order: the record at position [k] carries the text of the [k]-th
    survivor, the [k]-th vector of the embedding service and the id made
    from [k]. *)
Theorem store_ids (rt : Runtime) (pdfPath outputPath : string) (w w' : world) :
  ingestPDF rt pdfPath outputPath w = (Ok tt, w') ->
  exists text stored,
    files w' outputPath = Some (JSONText text (VArray stored))
    /\ map id_of stored = map (fun i => Some (chunk_id i)) (seq 0 (length stored))
    /\ NoDup (map id_of stored)
    /\ (stored = []
        \/ exists data docs cleanedDocs vectors,
             PDFLoader_load rt pdfPath = Ok data
             /\ splitDocuments rt (filter page_filter data) = Ok docs
             /\ cleanedDocs_of docs = Ok cleanedDocs
             /\ embedDocuments rt (texts_of (finalDocs_of cleanedDocs)) = Ok vectors
             /\ length stored = length (finalDocs_of cleanedDocs)
             /\ forall k doc,
                  nth_error (finalDocs_of cleanedDocs) k = Some doc ->
                  nth_error stored k = Some (json_of (embedding_record vectors doc k))
                  /\ get (embedding_record vectors doc k) (lit "id") = Some (chunk_id k)
                  /\ get (embedding_record vectors doc k) (lit "text")
                     = Some (opt_string (pageContent doc))
                  /\ get (embedding_record vectors doc k) (lit "embedding")
                     = Some (nth k vectors VUndefined)).
Proof.
  intros H. destruct (@ingest_success _ _ _ _ _ H)
    as [Hempty | (data & docs & cleaned & vectors & H1 & H2 & H3 & H4 & H5)].
  - exists (lit "[]"), []. split; [exact Hempty |]. split; [reflexivity |].
    split; [constructor | now left].
  - exists (JSON_stringify rt (VArray (mapi (embedding_record vectors) (finalDocs_of cleaned)))),
           (map json_of (mapi (embedding_record vectors) (finalDocs_of cleaned))).
    assert (L : length (map json_of (mapi (embedding_record vectors) (finalDocs_of cleaned)))
                = length (finalDocs_of cleaned))
      by (unfold mapi; now rewrite length_map, mapi_from_length).
    assert (I : map id_of (map json_of (mapi (embedding_record vectors) (finalDocs_of cleaned)))
                = map (fun i => Some (chunk_id i))
                      (seq 0 (length (map json_of (mapi (embedding_record vectors)
                                                     (finalDocs_of cleaned))))))
      by (rewrite L; apply ids_of_records).
    split; [exact H5 |]. split; [exact I |].
    split; [rewrite I; apply chunk_ids_NoDup |].
    right. exists data, docs, cleaned, vectors.
    repeat (split; [assumption |]).
    intros k doc Hk. split; [| repeat split].
    unfold mapi. rewrite nth_error_map.
    now rewrite (mapi_from_nth_error (embedding_record vectors) _ 0 k Hk).
Qed.

Lemma store_ids_witness :
  exists text stored,
    files (snd (ingestPDF (demo [good_page] [good_chunk_1; good_chunk_2])
                  "in.pdf" "out.json" empty_world)) "out.json"
    = Some (JSONText text (VArray stored))
    /\ map id_of stored = [Some (VString (lit "chunk-0")); Some (VString (lit "chunk-1"))]
    /\ NoDup (map id_of stored).
Proof.
  destruct (@store_ids (demo [good_page] [good_chunk_1; good_chunk_2])
              "in.pdf" "out.json" empty_world
              (snd (ingestPDF (demo [good_page] [good_chunk_1; good_chunk_2])
                      "in.pdf" "out.json" empty_world)) eq_refl)
    as (text & stored & Hfile & Hids & Hnodup & _).
  exists text, stored. split; [exact Hfile |]. split; [| exact Hnodup].
  assert (L : length stored = 2).
  { cbn in Hfile. inversion Hfile. reflexivity. }
  rewrite Hids, L. reflexivity.
Defined.

(** ** Retrieval *)





(** * Further lemmas and properties *)

(** ** The similarity scorer *)

Lemma SFmul_comm x y : SF64mul x y = SF64mul y x.
Proof.
  unfold SF64mul, SFmul.
  destruct x as [sx | sx | | sx mx ex], y as [sy | sy | | sy my ey];
    try reflexivity; try (now rewrite xorb_comm).
  now rewrite xorb_comm, Pos.mul_comm, Z.add_comm.
Qed.

Lemma float_mul_comm (x y : number) : (x * y)%float = (y * x)%float.
Proof. apply Prim2SF_inj. now rewrite !mul_spec, SFmul_comm. Qed.

Lemma dot_product_comm xs : forall ys, dot_product xs ys = dot_product ys xs.
Proof.
  unfold dot_product. generalize 0%float.
  induction xs as [| x xs IH]; intros acc [| y ys]; cbn; try reflexivity.
  rewrite (float_mul_comm x y). apply IH.
Qed.

(** X1: the scorer is symmetric.  [cosine(a, b)] and [cosine(b, a)] are the
    same number for any two values: two arrays of any lengths and entries,
    or values that are not arrays. *)
Theorem cosine_symmetric (a b : jsval) : cosine a b = cosine b a.
Proof.
  destruct a as [| | | | | la |], b as [| | | | | lb |]; try reflexivity.
  rewrite (cosine_arrays la lb), (cosine_arrays lb la). cbv zeta.
  rewrite (Nat.min_comm (length lb) (length la)).
  set (len := Nat.min (length la) (length lb)).
  rewrite (dot_product_comm (firstn len (coerce la)) (firstn len (coerce lb))).
  rewrite (float_mul_comm (magnitude (firstn len (coerce la)))).
  now rewrite orb_comm.
Qed.

(** ** The word count *)

Lemma words_zero_iff s : words s = 0 <-> Forall (fun c => is_space c = true) s.
Proof.
  unfold words. split.
  - induction s as [| c s IH]; intros H; [constructor |].
    cbn [count_runs] in H. destruct (is_space c) eqn:Pc; [| discriminate].
    constructor; [exact Pc | now apply IH].
  - induction 1 as [| c s Pc _ IH]; [reflexivity |].
    cbn [count_runs]. now rewrite Pc.
Qed.

Lemma count_runs_bound s : forall b,
  2 * count_runs b s <= length s + (if b then 0 else 1).
Proof.
  induction s as [| c s IH]; intros b; cbn [count_runs length].
  - destruct b; lia.
  - destruct (is_space c).
    + specialize (IH false). cbn in IH. destruct b; lia.
    + specialize (IH true). cbn in IH. destruct b; lia.
Qed.

Lemma count_runs_sep a : forall b w rest,
  w <> [] -> Forall (fun c => is_space c = true) w ->
  count_runs b (a ++ w ++ rest) = count_runs b a + count_runs false rest.
Proof.
  induction a as [| c a IH]; intros b w rest Hne F.
  - cbn [app count_runs]. now apply count_runs_skip.
  - cbn [app count_runs]. destruct (is_space c); rewrite IH by assumption; lia.
Qed.

(** X2: the word count.  [countWords(s)] is 0 exactly when [s] holds
    nothing but whitespace (the empty text included); a text of [n]
    characters has at most [(n + 1) / 2] words; the count is additive over
    a run of whitespace, so the words of [s], whitespace, [t] are those of
    [s] and those of [t]; a text without whitespace that is not empty is one
    word. *)
Theorem countWords_facts (s : jsstring) :
  (countWords s = 0 <-> Forall (fun c => is_space c = true) s)
  /\ 2 * countWords s <= length s + 1
  /\ (forall t w, w <> [] -> Forall (fun c => is_space c = true) w ->
        countWords (s ++ w ++ t) = countWords s + countWords t)
  /\ (Forall (fun c => is_space c = false) s -> s <> [] -> countWords s = 1).
Proof.
  rewrite !countWords_words.
  split; [apply words_zero_iff |].
  split; [apply (count_runs_bound s false) |].
  split.
  - intros t w Hne F. rewrite !countWords_words. unfold words. now apply count_runs_sep.
  - intros F Hne. unfold words. destruct s as [| c s]; [congruence |].
    inversion F as [| ? ? Pc F']; subst. cbn [count_runs]. rewrite Pc.
    clear Hne F Pc. induction F' as [| d s Pd _ IH]; [reflexivity |].
    cbn [count_runs]. rewrite Pd. exact IH.
Qed.

Lemma countWords_facts_witness :
  countWords (lit "a" ++ [32; 10]%N ++ lit "b c") = countWords (lit "a") + countWords (lit "b c")
  /\ countWords (lit "abc") = 1.
Proof.
  pose proof (countWords_facts (lit "a")) as (_ & _ & H & _).
  pose proof (countWords_facts (lit "abc")) as (_ & _ & _ & K).
  split.
  - apply H; [discriminate | repeat constructor].
  - apply K; [repeat constructor | discriminate].
Defined.

(** ** The cleaner *)

Lemma Forall_trim (P : N -> Prop) s : Forall P s -> Forall P (trim s).
Proof.
  intros F. destruct (trim_split s) as (w1 & w2 & E & _).
  rewrite E in F. apply Forall_app in F. destruct F as [_ F].
  apply Forall_app in F. tauto.
Qed.

Lemma Forall_collapse (P : N -> Prop) s : P 32%N -> Forall P s -> Forall P (collapse s).
Proof.
  intros P32 F. unfold collapse. induction F as [| c s Pc F IH]; [constructor |].
  cbn [replace_plus]. destruct (is_space c).
  - destruct s as [| c' s']; [repeat constructor; exact P32 |].
    destruct (is_space c'); [exact IH | constructor; [exact P32 | exact IH]].
  - constructor; assumption.
Qed.

Lemma clean_char_32 : clean_char 32%N.
Proof. split; [reflexivity | intros _; reflexivity]. Qed.

Lemma clean_chars s : Forall clean_char (clean s).
Proof.
  rewrite clean_eq. unfold remove_outside.
  apply Forall_forall. intros c H. apply filter_In in H. destruct H as [H A].
  split; [exact A |].
  assert (F : Forall (fun c => is_space c = true -> c = 32%N) (trim (collapse s)))
    by apply Forall_trim, collapse_spaces.
  rewrite Forall_forall in F. now apply F.
Qed.

Lemma filter_all (A : Type) (f : A -> bool) (l : list A) :
  Forall (fun x => f x = true) l -> filter f l = l.
Proof. induction 1 as [| x l Hx _ IH]; cbn; [reflexivity | now rewrite Hx, IH]. Qed.

Lemma collapse_no_double s : no_double (collapse s) = true.
Proof.
  unfold collapse. induction s as [| c s IH]; [reflexivity |].
  cbn [replace_plus]. destruct (is_space c) eqn:Pc.
  - destruct s as [| c' s']; [reflexivity |].
    destruct (is_space c') eqn:Pc'; [exact IH |].
    cbn [app no_double]. rewrite IH.
    cbn [replace_plus]. rewrite Pc'. cbn [starts_with]. rewrite Pc'.
    now rewrite andb_false_r.
  - cbn [no_double]. now rewrite Pc, IH.
Qed.

Lemma collapse_id s :
  Forall (fun c => is_space c = true -> c = 32%N) s -> no_double s = true -> collapse s = s.
Proof.
  unfold collapse. induction 1 as [| c s Hc F IH]; intros D; [reflexivity |].
  cbn [no_double] in D. apply andb_true_iff in D. destruct D as [D1 D2].
  cbn [replace_plus]. destruct (is_space c) eqn:Pc.
  - rewrite (Hc eq_refl) in *. destruct s as [| c' s']; [reflexivity |].
    cbn [starts_with andb] in D1. apply negb_true_iff in D1. rewrite D1.
    cbn [app]. now rewrite (IH D2).
  - now rewrite (IH D2).
Qed.

Lemma no_double_app a : forall b, no_double (a ++ b) = true -> no_double a = true /\ no_double b = true.
Proof.
  induction a as [| c a IH]; intros b H; [now split |].
  cbn [app no_double] in *. apply andb_true_iff in H. destruct H as [H1 H2].
  destruct (IH b H2) as [Ha Hb]. split; [| exact Hb].
  rewrite Ha, andb_true_r. destruct (is_space c); [| reflexivity].
  cbn [andb] in *. destruct a as [| c' a']; [reflexivity |]. exact H1.
Qed.

Lemma no_double_trim s : no_double s = true -> no_double (trim s) = true.
Proof.
  intros H. destruct (trim_split s) as (w1 & w2 & E & _).
  rewrite E in H. apply no_double_app in H. destruct H as [_ H].
  apply no_double_app in H. tauto.
Qed.

Lemma clean_normal_id s : normal s -> clean s = s.
Proof.
  intros (F & D & S & E).
  assert (F1 : Forall (fun c => is_space c = true -> c = 32%N) s)
    by (eapply Forall_impl; [| exact F]; intros c [_ H]; exact H).
  assert (F2 : Forall (fun c => allowed c = true) s)
    by (eapply Forall_impl; [| exact F]; intros c [H _]; exact H).
  rewrite clean_eq, (collapse_id F1 D), (trim_id s S E).
  now apply filter_all.
Qed.

Lemma clean_twice_normal s : normal (clean (clean s)).
Proof.
  pose proof (clean_chars s) as F. set (t := clean s) in *.
  assert (Fc : Forall clean_char (trim (collapse t)))
    by (apply Forall_trim, Forall_collapse; [apply clean_char_32 | exact F]).
  assert (E : clean t = trim (collapse t)).
  { rewrite clean_eq. apply filter_all.
    eapply Forall_impl; [| exact Fc]. intros c [H _]. exact H. }
  rewrite E. split; [exact Fc |].
  split; [apply no_double_trim, collapse_no_double |].
  split; [apply trim_starts | apply trim_ends].
Qed.

Lemma length_replace_one (p : N -> bool) (x : N) s :
  length (replace_plus p [x] s) <= length s.
Proof.
  induction s as [| c s IH]; [cbn; lia |].
  cbn [replace_plus]. destruct (p c).
  - destruct s as [| c' s']; [cbn; lia |].
    destruct (p c'); cbn [app length] in *; lia.
  - cbn [length]. lia.
Qed.

Lemma length_trim s : length (trim s) <= length s.
Proof.
  destruct (trim_split s) as (w1 & w2 & E & _).
  rewrite E at 2. rewrite !length_app. lia.
Qed.

Lemma count_runs_space_first b s :
  starts_with is_space s = true -> count_runs b s = count_runs false s.
Proof.
  destruct s as [| c s]; cbn [starts_with]; [discriminate |].
  intros Pc. cbn [count_runs]. now rewrite Pc.
Qed.

Lemma count_runs_collapse s : forall b, count_runs b (collapse s) = count_runs b s.
Proof.
  unfold collapse. induction s as [| c s IH]; intros b; [reflexivity |].
  cbn [replace_plus count_runs]. destruct (is_space c) eqn:Pc.
  - destruct s as [| c' s']; [reflexivity |].
    destruct (is_space c') eqn:Pc'.
    + rewrite IH. apply count_runs_space_first. cbn. exact Pc'.
    + cbn [app]. change (count_runs b (32%N :: ?x)) with (count_runs false x).
      apply IH.
  - cbn [count_runs]. now rewrite Pc, IH.
Qed.

Lemma words_clean s : words (clean s) <= words s.
Proof.
  rewrite clean_eq. unfold remove_outside, words.
  set (t := trim (collapse s)).
  assert (Ft : Forall (fun c => is_space c = true -> c = 32%N) t)
    by apply Forall_trim, collapse_spaces.
  assert (W : count_runs false t = count_runs false s).
  { unfold t. fold (words (trim (collapse s))). rewrite words_trim.
    unfold words. apply count_runs_collapse. }
  rewrite <- W. clear W. revert Ft. generalize false. induction t as [| c t IH]; intros b F; [cbn; lia |].
  inversion F as [| ? ? Hc F']; subst. cbn [filter].
  destruct (is_space c) eqn:Pc.
  - rewrite (Hc eq_refl). change (allowed 32) with true. cbv iota.
    cbn [count_runs]. change (is_space 32) with true. cbv iota. now apply IH.
  - destruct (allowed c); cbn [count_runs]; rewrite ?Pc.
    + specialize (IH true F'). lia.
    + specialize (IH b F'). pose proof (count_runs_in_word t) as W.
      destruct (starts_with (fun c0 => negb (is_space c0)) t); destruct b; lia.
Qed.

Lemma length_clean s : length (clean s) <= length s.
Proof.
  rewrite clean_eq. unfold remove_outside.
  etransitivity; [apply filter_length_le |].
  etransitivity; [apply length_trim |]. apply length_replace_one.
Qed.

Lemma clean_char_not c : is_space c = true -> c <> 32%N -> ~ clean_char c.
Proof. intros S N [_ H]. auto. Qed.

(** X3: what a cleaned text looks like.  Every character of [clean s] is on
    the allow-list, and the only whitespace left is the space: although the
    allow-list admits the line feed and the carriage return, no line feed,
    carriage return or tab survives, since the whitespace runs are replaced
    first.  Cleaning never makes a text longer and never adds a word. *)
Theorem clean_shape (s : jsstring) :
  Forall clean_char (clean s)
  /\ ~ In 10%N (clean s) /\ ~ In 13%N (clean s) /\ ~ In 9%N (clean s)
  /\ length (clean s) <= length s
  /\ countWords (clean s) <= countWords s.
Proof.
  pose proof (clean_chars s) as F.
  assert (N : forall c, is_space c = true -> c <> 32%N -> ~ In c (clean s)).
  { intros c S Hc Hin. eapply Forall_forall in F; [| exact Hin].
    now apply (clean_char_not S Hc). }
  split; [exact F |].
  split; [apply N; [reflexivity | discriminate] |].
  split; [apply N; [reflexivity | discriminate] |].
  split; [apply N; [reflexivity | discriminate] |].
  split; [apply length_clean |].
  rewrite !countWords_words. apply words_clean.
Qed.

(** X4: the cleaner is not idempotent, and settles after two passes.  A
    text that is already in the form aimed at (allow-listed characters, no
    whitespace but single spaces, none at the ends) is left as it is, and the
    result of two passes is always in this form, so a third pass changes
    nothing.  One pass is not enough: removing a character that stood
    between two spaces leaves two adjacent spaces, and removing the first
    character before a space leaves a leading space. *)
Theorem clean_fixed_point (s : jsstring) :
  (normal s -> clean s = s)
  /\ normal (clean (clean s))
  /\ clean (clean (clean s)) = clean (clean s)
  /\ clean accented = lit "a  b"
  /\ clean (clean accented) = lit "a b"
  /\ clean ([233%N] ++ lit " a") = lit " a".
Proof.
  split; [apply clean_normal_id |].
  split; [apply clean_twice_normal |].
  split; [apply clean_normal_id, clean_twice_normal |].
  repeat split; reflexivity.
Qed.

Lemma clean_fixed_point_witness : clean (lit "a b") = lit "a b".
Proof.
  apply (proj1 (clean_fixed_point (lit "a b"))).
  split; [| split; [| split]]; try reflexivity.
  repeat constructor; intros H; vm_compute in H; discriminate H.
Defined.

(** ** The metadata of a chunk *)

Lemma jsstring_eqb_eq a : forall b, jsstring_eqb a b = true <-> a = b.
Proof.
  induction a as [| x a IH]; intros [| y b]; cbn [jsstring_eqb]; split; intros H;
    try discriminate; try reflexivity.
  - apply andb_true_iff in H. destruct H as [H1 H2].
    apply N.eqb_eq in H1. apply IH in H2. congruence.
  - inversion H; subst. now rewrite N.eqb_refl, jsstring_eqb_refl.
Qed.

Lemma jsstring_eqb_neq a b : a <> b -> jsstring_eqb a b = false.
Proof.
  intros H. destruct (jsstring_eqb a b) eqn:E; [| reflexivity].
  apply jsstring_eqb_eq in E. contradiction.
Qed.

Lemma lookup_set_same k v fields : lookup_field k (set_field k v fields) = v.
Proof.
  induction fields as [| [k' v'] rest IH]; cbn [set_field lookup_field].
  - now rewrite jsstring_eqb_refl.
  - destruct (jsstring_eqb k k') eqn:E; cbn [lookup_field].
    + now rewrite jsstring_eqb_refl.
    + now rewrite E.
Qed.

Lemma lookup_set_other k k' v fields :
  k' <> k -> lookup_field k' (set_field k v fields) = lookup_field k' fields.
Proof.
  intros Hne. induction fields as [| [k0 v0] rest IH]; cbn [set_field lookup_field].
  - now rewrite (jsstring_eqb_neq Hne).
  - destruct (jsstring_eqb k k0) eqn:E; cbn [lookup_field].
    + apply jsstring_eqb_eq in E. subst k0. now rewrite (jsstring_eqb_neq Hne).
    + now rewrite IH.
Qed.

Lemma set_field_keys k v fields :
  keys (set_field k v fields) = if existsb (jsstring_eqb k) (keys fields)
                                then keys fields else keys fields ++ [k].
Proof.
  unfold keys. induction fields as [| [k0 v0] rest IH]; cbn [set_field map existsb fst].
  - reflexivity.
  - destruct (jsstring_eqb k k0) eqn:E; cbn [map fst orb].
    + apply jsstring_eqb_eq in E. now subst.
    + rewrite IH. now destruct (existsb (jsstring_eqb k) (map fst rest)).
Qed.

Lemma set_field_NoDup k v fields : NoDup (keys fields) -> NoDup (keys (set_field k v fields)).
Proof.
  intros H. rewrite set_field_keys.
  destruct (existsb (jsstring_eqb k) (keys fields)) eqn:E; [exact H |].
  apply NoDup_app; [exact H | repeat constructor; intros [] |].
  intros x Hx [<- | []].
  assert (existsb (jsstring_eqb k) (keys fields) = true); [| congruence].
  apply existsb_exists. exists k. split; [exact Hx | apply jsstring_eqb_refl].
Qed.

Lemma stamp_chunkIndex m i :
  lookup_field (lit "chunkIndex") (spread (stamp m i)) = VNumber (of_nat i).
Proof.
  unfold stamp. cbn [spread]. rewrite lookup_set_other by discriminate.
  apply lookup_set_same.
Qed.

(** X5: the metadata written for the chunk at position [i] (line 128).  It
    is an object whose [chunkIndex] is [i] and whose [source] is the source
    of the chunk's own metadata, or the empty string when that is absent,
    [undefined] or [null]: the [source] written is never [undefined] nor
    [null], and a source that is there is kept.  Every other property of
    the chunk's metadata is copied unchanged, and no key is written
    twice. *)
Theorem stamp_spec (m : jsval) (i : nat) :
  exists fields,
    stamp m i = VObject fields
    /\ lookup_field (lit "chunkIndex") fields = VNumber (of_nat i)
    /\ lookup_field (lit "source") fields = source_of m
    /\ source_of m <> VUndefined /\ source_of m <> VNull
    /\ (forall k, k <> lit "chunkIndex" -> k <> lit "source" ->
          lookup_field k fields = lookup_field k (spread m))
    /\ (NoDup (keys (spread m)) -> NoDup (keys fields))
    /\ (forall fs v, m = VObject fs -> lookup_field (lit "source") fs = v ->
          v <> VUndefined -> v <> VNull -> lookup_field (lit "source") fields = v).
Proof.
  eexists. split; [reflexivity |].
  split; [rewrite lookup_set_other by discriminate; apply lookup_set_same |].
  split; [apply lookup_set_same |].
  split; [unfold source_of; destruct (get m (lit "source")) as [[] |]; discriminate |].
  split; [unfold source_of; destruct (get m (lit "source")) as [[] |]; discriminate |].
  split; [intros k H1 H2; now rewrite !lookup_set_other by assumption |].
  split; [intros H; now apply set_field_NoDup, set_field_NoDup |].
  intros fs v -> Hv N1 N2. rewrite lookup_set_same.
  unfold source_of. cbn [get]. rewrite Hv. destruct v; congruence.
Qed.

Lemma stamp_spec_witness :
  exists fields,
    stamp sourced_metadata 3 = VObject fields
    /\ lookup_field (lit "source") fields = VString (lit "a.pdf")
    /\ NoDup (keys fields).
Proof.
  destruct (stamp_spec sourced_metadata 3) as (fields & E & _ & _ & _ & _ & _ & Hk & Hs).
  exists fields. split; [exact E |]. split.
  - apply (Hs _ _ eq_refl eq_refl); discriminate.
  - apply Hk. vm_compute.
    constructor; [intros [H | []]; discriminate H |].
    constructor; [intros [] | constructor].
Defined.

Lemma clean_doc_some d k : has_text d -> clean_doc d k = Some (cleaned_chunk d k).
Proof.
  unfold has_text, clean_doc, cleaned_chunk. intros H.
  destruct (pageContent d) as [[| c t] |]; [reflexivity | reflexivity | congruence].
Qed.

Lemma clean_doc_none d k : pageContent d = None -> clean_doc d k = None.
Proof. unfold clean_doc. now intros ->. Qed.

Lemma cleaned_all docs : forall i,
  Forall has_text docs ->
  mapM (fun di => of_option TypeError (clean_doc (fst di) (snd di)))
       (combine docs (seq i (length docs)))
  = Ok (mapi_from cleaned_chunk i docs).
Proof.
  induction docs as [| d docs IH]; intros i F; [reflexivity |].
  inversion F as [| ? ? Hd F']; subst.
  cbn [length seq combine mapM fst snd mapi_from].
  rewrite (@clean_doc_some d i Hd). cbn [of_option]. now rewrite (IH (S i) F').
Qed.

Lemma cleaned_fails docs : forall i,
  Exists (fun d => pageContent d = None) docs ->
  mapM (fun di => of_option TypeError (clean_doc (fst di) (snd di)))
       (combine docs (seq i (length docs)))
  = Throw TypeError.
Proof.
  induction docs as [| d docs IH]; intros i E; [inversion E |].
  cbn [length seq combine mapM fst snd].
  destruct (pageContent d) as [t |] eqn:Hd.
  - unfold clean_doc at 1. rewrite Hd. cbn [of_option].
    inversion E as [? ? H | ? ? H]; subst; [congruence |]. now rewrite (IH (S i) H).
  - now rewrite (@clean_doc_none d i Hd).
Qed.

Lemma has_text_dec docs :
  Forall has_text docs \/ Exists (fun d => pageContent d = None) docs.
Proof.
  induction docs as [| d docs [IH | IH]].
  - left. constructor.
  - destruct (pageContent d) eqn:E.
    + left. constructor; [unfold has_text; congruence | exact IH].
    + right. now constructor.
  - right. now constructor 2.
Qed.

(** X6: the cleaning pass over the chunks (lines 115-130).  When every chunk
    has a text, the pass succeeds and gives, at each position [k], the
    cleaned text of the [k]-th chunk with the metadata stamped with [k]: as
    many chunks as it was given, in the same order.  When one chunk has no
    text, the pass fails with a [TypeError], and so does the ingestion. *)
Theorem cleanedDocs_spec (docs : list Document) :
  (Forall has_text docs -> cleanedDocs_of docs = Ok (mapi cleaned_chunk docs))
  /\ (Exists (fun d => pageContent d = None) docs -> cleanedDocs_of docs = Throw TypeError)
  /\ (forall cleanedDocs, cleanedDocs_of docs = Ok cleanedDocs ->
        length cleanedDocs = length docs
        /\ forall k d, nth_error docs k = Some d ->
             nth_error cleanedDocs k = Some (cleaned_chunk d k)
             /\ lookup_field (lit "chunkIndex") (spread (metadata (cleaned_chunk d k)))
                = VNumber (of_nat k)).
Proof.
  split; [intros F; apply (cleaned_all 0 F) |].
  split; [intros E; apply (cleaned_fails 0 E) |].
  intros cleaned H. destruct (has_text_dec docs) as [F | E].
  - unfold cleanedDocs_of in H. rewrite (cleaned_all 0 F) in H. inversion H; subst.
    split; [apply mapi_from_length |].
    intros k d Hk. split.
    + now rewrite (mapi_from_nth_error cleaned_chunk docs 0 k Hk).
    + unfold cleaned_chunk. cbn [metadata]. apply stamp_chunkIndex.
  - unfold cleanedDocs_of in H. rewrite (cleaned_fails 0 E) in H. discriminate.
Qed.

Lemma cleanedDocs_spec_witness :
  cleanedDocs_of [good_chunk_1; good_chunk_2]
  = Ok (mapi cleaned_chunk [good_chunk_1; good_chunk_2])
  /\ cleanedDocs_of [good_chunk_1; blank_chunk] = Throw TypeError.
Proof.
  split.
  - apply (proj1 (cleanedDocs_spec [good_chunk_1; good_chunk_2])).
    constructor; [discriminate |]. constructor; [discriminate | constructor].
  - apply (proj1 (proj2 (cleanedDocs_spec [good_chunk_1; blank_chunk]))).
    apply Exists_cons_tl, Exists_cons_hd. reflexivity.
Defined.

(** ** Ingestion *)


Lemma files_write_other rt path v w p :
  p <> path -> files (snd (writeFileSync rt path v w)) p = files w p.
Proof.
  intros H. cbn [writeFileSync snd files].
  destruct (String.eqb_spec p path); [contradiction | reflexivity].
Qed.

Ltac ingest_step H :=
  match type of H with
  | context [match ?r with Ok _ => _ | Throw _ => _ end] =>
      let E := fresh "E" in destruct r eqn:E
  | context [if Nat.eqb (length ?l) 0 then _ else _] =>
      let E := fresh "E" in destruct (Nat.eqb (length l) 0) eqn:E
  end.

Ltac ingest_run H :=
  unfold ingestPDF, bind, call, lift, writeFileSync in H; cbn [files calls] in H;
  repeat ingest_step H; inversion H; subst; clear H; cbn [files calls].




Lemma mapi_from_combine (A B : Type) (f : A -> nat -> B) (l : list A) : forall i,
  mapi_from f i l = map (fun xi => f (fst xi) (snd xi)) (combine l (seq i (length l))).
Proof.
  induction l as [| x l IH]; intros i; [reflexivity |].
  cbn [mapi_from length seq combine map fst snd]. now rewrite IH.
Qed.

Lemma filter_map_comm (A B : Type) (f : A -> B) (p : B -> bool) (l : list A) :
  filter p (map f l) = map f (filter (fun x => p (f x)) l).
Proof.
  induction l as [| x l IH]; [reflexivity |].
  cbn [map filter]. destruct (p (f x)); cbn [map]; now rewrite IH.
Qed.

Lemma final_survivors docs :
  finalDocs_of (mapi cleaned_chunk docs)
  = map (fun dj => cleaned_chunk (fst dj) (snd dj)) (survivors docs).
Proof.
  unfold finalDocs_of, mapi, survivors.
  now rewrite mapi_from_combine, filter_map_comm.
Qed.

Lemma filter_indexed (A : Type) (p : A * nat -> bool) (l : list A) : forall i k x j,
  nth_error (filter p (combine l (seq i (length l)))) k = Some (x, j) ->
  i + k <= j /\ nth_error l (j - i) = Some x /\ p (x, j) = true.
Proof.
  induction l as [| y l IH]; intros i k x j H.
  - destruct k; discriminate H.
  - cbn [length seq combine filter] in H.
    destruct (p (y, i)) eqn:E.
    + destruct k as [| k].
      * cbn in H. inversion H; subst. rewrite Nat.sub_diag. repeat split; [lia | exact E].
      * cbn [nth_error] in H. apply IH in H. destruct H as (H1 & H2 & H3).
        replace (j - i) with (S (j - S i)) by lia. repeat split; [lia | exact H2 | exact H3].
    + apply IH in H. destruct H as (H1 & H2 & H3).
      replace (j - i) with (S (j - S i)) by lia. repeat split; [lia | exact H2 | exact H3].
Qed.

Lemma filter_indexed_sorted (A : Type) (p : A * nat -> bool) (l : list A) : forall i,
  StronglySorted lt (map snd (filter p (combine l (seq i (length l))))).
Proof.
  induction l as [| y l IH]; intros i; [constructor |].
  cbn [length seq combine filter].
  destruct (p (y, i)); [| apply IH].
  cbn [map snd]. constructor; [apply IH |].
  apply Forall_forall. intros j Hj. apply in_map_iff in Hj.
  destruct Hj as ([x j'] & Ej & Hin). cbn in Ej. subst j'.
  apply In_nth_error in Hin. destruct Hin as (k & Hk).
  apply filter_indexed in Hk. lia.
Qed.

Lemma survivors_length docs : length (survivors docs) <= length docs.
Proof.
  unfold survivors. etransitivity; [apply filter_length_le |].
  rewrite length_combine, length_seq. lia.
Qed.

Lemma content_some raw : content_or_empty (Some raw) = raw.
Proof. now destruct raw. Qed.

Lemma mapi_from_map (A B C : Type) (f : B -> nat -> C) (g : A -> B) (l : list A) : forall i,
  mapi_from f i (map g l) = mapi_from (fun x k => f (g x) k) i l.
Proof. induction l as [| x l IH]; intros i; [reflexivity |]. cbn. now rewrite IH. Qed.

Lemma cleaned_has_text docs cleaned :
  cleanedDocs_of docs = Ok cleaned -> Forall has_text docs /\ cleaned = mapi cleaned_chunk docs.
Proof.
  intros H. destruct (has_text_dec docs) as [F | E].
  - split; [exact F |]. unfold cleanedDocs_of in H. rewrite (cleaned_all 0 F) in H.
    now inversion H.
  - unfold cleanedDocs_of in H. rewrite (cleaned_fails 0 E) in H. discriminate.
Qed.

(** X8: what the store holds.  After a successful ingestion the store is
    empty, or it holds one record for each chunk that passes the second
    filter, in the order of the chunks, and not more records than chunks.
    The record at position [k] is made from a chunk that the splitter
    returned at a position [j] with [k <= j]: its id is made from [k] while
    the [chunkIndex] of its metadata is [j], so the two differ as soon as an
    earlier chunk was dropped.  Its text is the cleaned text of the chunk,
    which has at least 5 words and no whitespace but spaces; the texts sent
    to the embedding service are these texts, in this order. *)
Theorem store_contents (rt : Runtime) (pdfPath outputPath : string) (w w' : world) :
  ingestPDF rt pdfPath outputPath w = (Ok tt, w') ->
  exists text stored,
    files w' outputPath = Some (JSONText text (VArray stored))
    /\ (stored = []
        \/ exists data docs vectors,
             PDFLoader_load rt pdfPath = Ok data
             /\ splitDocuments rt (filter page_filter data) = Ok docs
             /\ embedDocuments rt
                  (map (fun dj => VString (clean (content_or_empty (pageContent (fst dj)))))
                       (survivors docs)) = Ok vectors
             /\ length stored = length (survivors docs)
             /\ length stored <= length docs
             /\ StronglySorted lt (map snd (survivors docs))
             /\ forall k d j,
                  nth_error (survivors docs) k = Some (d, j) ->
                  exists raw,
                    nth_error docs j = Some d
                    /\ pageContent d = Some raw
                    /\ k <= j
                    /\ 5 <= words (clean raw)
                    /\ Forall clean_char (clean raw)
                    /\ nth_error stored k = Some (json_of (stored_record vectors k d j))
                    /\ get (stored_record vectors k d j) (lit "text")
                       = Some (VString (clean raw))
                    /\ get (stored_record vectors k d j) (lit "metadata")
                       = Some (stamp (metadata d) j)).
Proof.
  intros H. apply ingest_success in H.
  destruct H as [H | (data & docs & cleaned & vectors & Hl & Hs & Hc & He & Hf)].
  { exists (lit "[]"), []. split; [exact H | now left]. }
  apply cleaned_has_text in Hc. destruct Hc as (Ht & ->).
  rewrite final_survivors in He, Hf.
  eexists. eexists. split; [exact Hf |]. right. exists data, docs, vectors.
  split; [exact Hl |]. split; [exact Hs |].
  split. { unfold texts_of in He. rewrite map_map in He. exact He. }
  assert (L : length (map json_of (mapi (embedding_record vectors)
                (map (fun dj => cleaned_chunk (fst dj) (snd dj)) (survivors docs))))
              = length (survivors docs)).
  { rewrite length_map. unfold mapi. now rewrite mapi_from_length, length_map. }
  split; [exact L |]. split; [rewrite L; apply survivors_length |].
  split; [apply filter_indexed_sorted |].
  intros k d j Hk.
  pose proof Hk as Hk'. unfold survivors in Hk'. apply filter_indexed in Hk'.
  cbn [fst snd] in Hk'. destruct Hk' as (Hle & Hn & Hp).
  rewrite Nat.sub_0_r in Hn.
  assert (Hd : has_text d).
  { eapply Forall_forall in Ht; [exact Ht |]. eapply nth_error_In; exact Hn. }
  unfold has_text in Hd. destruct (pageContent d) as [raw |] eqn:Eraw; [| congruence].
  exists raw. split; [exact Hn |]. split; [reflexivity |]. split; [lia |].
  unfold final_filter, cleaned_chunk in Hp. cbn [pageContent] in Hp.
  rewrite Eraw, content_some in Hp. apply andb_true_iff in Hp. destruct Hp as [_ Hp].
  apply Nat.leb_le in Hp. rewrite countWords_words in Hp. unfold MIN_WORD_COUNT in Hp.
  split; [exact Hp |]. split; [apply clean_chars |].
  unfold stored_record. rewrite Eraw, content_some.
  split; [| split; reflexivity].
  unfold mapi. rewrite mapi_from_map, nth_error_map.
  rewrite (mapi_from_nth_error _ (survivors docs) 0 k Hk). cbn [option_map Nat.add].
  unfold embedding_record, cleaned_chunk, chunk_id.
  cbn [pageContent metadata opt_string fst snd]. now rewrite Eraw, content_some.
Qed.

Lemma store_contents_witness :
  exists text stored,
    files (snd (ingestPDF two_chunks "in.pdf" "out.json" empty_world)) "out.json"
    = Some (JSONText text (VArray stored))
    /\ length stored = 2.
Proof.
  destruct (@store_contents two_chunks "in.pdf" "out.json" empty_world
              (snd (ingestPDF two_chunks "in.pdf" "out.json" empty_world)) eq_refl)
    as (text & stored & Hfile & _).
  exists text, stored. split; [exact Hfile |].
  cbn in Hfile. inversion Hfile. reflexivity.
Defined.

Lemma validItems_app a b : validItems_of (a ++ b) = validItems_of a ++ validItems_of b.
Proof. unfold validItems_of. apply filter_app. Qed.

Lemma json_stamp m j : exists fs, json_of (stamp m j) = VObject fs.
Proof. unfold stamp. cbn [json_of]. eexists. reflexivity. Qed.

(** X9: a chunk without a vector.  When the embedding service returns fewer
    vectors than texts, or [null] or an empty vector for a text, the record
    of that chunk is still stored; the reader loads it with its id and its
    text and with the empty embedding, and the query leaves it out of the
    scored items. *)
Theorem missing_vector (rt : Runtime) (vectors : list jsval) (k j : nat) (d : Document) :
  length vectors <= k \/ no_vector (nth k vectors VUndefined) ->
  exists it,
    load_item rt (json_of (stored_record vectors k d j)) = Ok it
    /\ item_id it = chunk_id k
    /\ item_text it = VString (clean (content_or_empty (pageContent d)))
    /\ item_embedding it = []
    /\ forall before after,
         validItems_of (before ++ it :: after)
         = validItems_of before ++ validItems_of after.
Proof.
  intros H.
  assert (H' : no_vector (nth k vectors VUndefined)).
  { destruct H as [H | H]; [left; now apply nth_overflow | exact H]. }
  clear H. rename H' into H. destruct (json_stamp (metadata d) j) as (fs & Efs).
  assert (E : exists it,
             load_item rt (json_of (stored_record vectors k d j)) = Ok it
             /\ item_id it = chunk_id k
             /\ item_text it = VString (clean (content_or_empty (pageContent d)))
             /\ item_embedding it = []).
  { unfold stored_record, load_item, chunk_id.
    destruct H as [H | [H | H]]; rewrite H; cbn [json_of map]; rewrite Efs;
      cbn [get lookup_field];
      cbn [jsstring_eqb lit list_ascii_of_string N_of_ascii N_of_digits map N.eqb Pos.eqb
           andb N.add N.mul];
      cbn [read_embedding ToBoolean read_metadata map];
      eexists; (split; [reflexivity |]); repeat split. }
  destruct E as (it & E1 & E2 & E3 & E4). exists it.
  repeat split; try assumption.
  intros before after. rewrite validItems_app. f_equal.
  unfold validItems_of. cbn [filter]. now rewrite E4.
Qed.

Lemma missing_vector_witness :
  exists it,
    load_item two_chunks (json_of (stored_record [] 0 good_chunk_1 0)) = Ok it
    /\ item_embedding it = [].
Proof.
  destruct (@missing_vector two_chunks [] 0 0 good_chunk_1 (or_introl (le_n 0)))
    as (it & H1 & _ & _ & H4 & _).
  exists it. split; [exact H1 | exact H4].
Defined.

Lemma ingest_stored rt pdfPath outputPath w w' :
  ingestPDF rt pdfPath outputPath w = (Ok tt, w') ->
  files w' outputPath = Some (JSONText (lit "[]") (VArray []))
  \/ exists text data docs vectors,
       PDFLoader_load rt pdfPath = Ok data
       /\ splitDocuments rt (filter page_filter data) = Ok docs
       /\ Forall has_text docs
       /\ embedDocuments rt (map (fun dj => VString (stored_text dj)) (survivors docs))
          = Ok vectors
       /\ files w' outputPath
          = Some (JSONText text
                    (VArray (map json_of
                       (mapi (fun dj k => stored_record vectors k (fst dj) (snd dj))
                             (survivors docs))))).
Proof.
  intros H. apply ingest_success in H.
  destruct H as [H | (data & docs & cleaned & vectors & Hl & Hs & Hc & He & Hf)];
    [now left | right].
  apply cleaned_has_text in Hc. destruct Hc as (Ht & ->).
  rewrite final_survivors in He, Hf.
  eexists. exists data, docs, vectors.
  split; [exact Hl |]. split; [exact Hs |]. split; [exact Ht |].
  split. { unfold texts_of in He. rewrite map_map in He. exact He. }
  rewrite Hf. unfold mapi. rewrite mapi_from_map.
  unfold embedding_record, stored_record, cleaned_chunk, chunk_id.
  cbn [pageContent metadata opt_string]. reflexivity.
Qed.

Lemma nth_vector vectors k :
  Forall (fun v => is_array v = true) vectors ->
  nth k vectors VUndefined = VUndefined
  \/ exists elems, nth k vectors VUndefined = VArray elems.
Proof.
  intros F. destruct (Nat.lt_ge_cases k (length vectors)) as [H | H].
  - right. pose proof (proj1 (Forall_forall _ _) F _ (nth_In _ VUndefined H)) as G.
    cbn beta in G. destruct (nth k vectors VUndefined); try discriminate G. now eexists.
  - left. now apply nth_overflow.
Qed.

Lemma load_stored rt vectors k d j :
  Forall (fun v => is_array v = true) vectors ->
  exists it,
    load_item rt (json_of (stored_record vectors k d j)) = Ok it
    /\ item_id it = chunk_id k
    /\ item_text it = VString (stored_text (d, j)).
Proof.
  intros F. destruct (json_stamp (metadata d) j) as (fs & Efs).
  unfold stored_record, load_item, chunk_id, stored_text.
  destruct (nth_vector k F) as [H | (elems & H)]; rewrite H; cbn [json_of map]; rewrite Efs;
    cbn [get lookup_field];
    cbn [jsstring_eqb lit list_ascii_of_string N_of_ascii N_of_digits map N.eqb Pos.eqb
         andb N.add N.mul];
    cbn [read_embedding ToBoolean read_metadata map];
    eexists; (split; [reflexivity |]); split; reflexivity.
Qed.

Lemma load_stored_all rt vectors (l : list (Document * nat)) : forall i,
  Forall (fun v => is_array v = true) vectors ->
  exists items,
    mapM (load_item rt)
         (map json_of (mapi_from (fun dj k => stored_record vectors k (fst dj) (snd dj)) i l))
    = Ok items
    /\ map item_id items = map chunk_id (seq i (length l))
    /\ map item_text items = map (fun dj => VString (stored_text dj)) l.
Proof.
  induction l as [| [d j] l IH]; intros i F.
  - exists []. repeat split.
  - destruct (IH (S i) F) as (items & E & Hid & Htx).
    destruct (@load_stored rt vectors i d j F) as (it & Eit & Iid & Itx).
    exists (it :: items). cbn [mapi_from map mapM fst snd length seq].
    rewrite Eit, E. split; [reflexivity |]. split; congruence.
Qed.

Lemma survivors_words docs :
  Forall (fun dj => 5 <= words (stored_text dj)) (survivors docs).
Proof.
  unfold survivors. apply Forall_forall. intros [d j] H. apply filter_In in H.
  destruct H as [_ H]. unfold final_filter, cleaned_chunk in H. cbn [pageContent fst snd] in H.
  apply andb_true_iff in H. destruct H as [_ H]. apply Nat.leb_le in H.
  rewrite countWords_words in H. exact H.
Qed.

Lemma demo_vectors pages chunks texts vectors :
  embedDocuments (demo pages chunks) texts = Ok vectors ->
  Forall (fun v => is_array v = true) vectors.
Proof.
  intros H. cbn in H. inversion H. apply Forall_forall. intros v Hin.
  apply in_map_iff in Hin. destruct Hin as (x & <- & _). reflexivity.
Qed.

(** X10: a store that the ingestion wrote can be read back.  After a
    successful ingestion, and provided that the embedding service returns
    arrays, loading the output file succeeds and changes nothing; the items
    carry the ids [chunk-0], [chunk-1], ... in order, and the text of each
    is a cleaned text of at least 5 words. *)
Theorem ingest_then_load (rt : Runtime) (pdfPath outputPath : string) (w w' : world) :
  ingestPDF rt pdfPath outputPath w = (Ok tt, w') ->
  (forall texts vectors,
     embedDocuments rt texts = Ok vectors -> Forall (fun v => is_array v = true) vectors) ->
  exists items,
    loadEmbeddings rt outputPath w' = (Ok items, w')
    /\ map item_id items = map chunk_id (seq 0 (length items))
    /\ Forall (fun it => exists t, item_text it = VString t
                                   /\ 5 <= words t /\ Forall clean_char t) items.
Proof.
  intros H Hv. apply ingest_stored in H.
  unfold loadEmbeddings, bind, readJSON, lift.
  destruct H as [H | (text & data & docs & vectors & _ & _ & _ & He & Hf)].
  - rewrite H. exists []. repeat split. constructor.
  - rewrite Hf. cbn [load_items]. apply Hv in He.
    destruct (@load_stored_all rt vectors (survivors docs) 0 He) as (items & E & Hid & Htx).
    unfold mapi. rewrite E. exists items. split; [reflexivity |].
    assert (L : length items = length (survivors docs)).
    { rewrite <- (length_map item_text items), Htx. apply length_map. }
    split; [now rewrite L |].
    apply Forall_forall. intros it Hin.
    apply (in_map item_text) in Hin. rewrite Htx in Hin. apply in_map_iff in Hin.
    destruct Hin as (dj & Edj & Hdj). exists (stored_text dj).
    split; [now symmetry |]. split.
    + pose proof (survivors_words docs) as W.
      eapply Forall_forall in W; [exact W | exact Hdj].
    + apply clean_chars.
Qed.

Lemma ingest_then_load_witness :
  exists items,
    loadEmbeddings two_chunks "out.json"
      (snd (ingestPDF two_chunks "in.pdf" "out.json" empty_world))
    = (Ok items, snd (ingestPDF two_chunks "in.pdf" "out.json" empty_world))
    /\ map item_id items = map chunk_id (seq 0 (length items)).
Proof.
  destruct (@ingest_then_load two_chunks "in.pdf" "out.json" empty_world
              (snd (ingestPDF two_chunks "in.pdf" "out.json" empty_world)) eq_refl
              (@demo_vectors [good_page] [good_chunk_1; good_chunk_2]))
    as (items & H1 & H2 & _).
  exists items. split; [exact H1 | exact H2].
Defined.

(** ** The store reader *)

Lemma mapM_Ok (A B : Type) (f : A -> result B) (l : list A) : forall ys,
  mapM f l = Ok ys <-> Forall2 (fun x y => f x = Ok y) l ys.
Proof.
  induction l as [| x l IH]; intros ys; cbn [mapM].
  - split; [intros H; inversion H; constructor | intros H; inversion H; reflexivity].
  - destruct (f x) as [y | e] eqn:Ex.
    + destruct (mapM f l) as [ys' | e] eqn:El.
      * split.
        -- intros H. inversion H; subst. constructor; [exact Ex | now apply IH].
        -- intros H. inversion H as [| ? y' ? ys'' Hy Hys]; subst.
           apply IH in Hys. congruence.
      * split; [discriminate |].
        intros H. inversion H as [| ? y' ? ys'' Hy Hys]; subst.
        apply IH in Hys. discriminate.
    + split; [discriminate |]. intros H. inversion H; subst. congruence.
Qed.

Lemma mapM_Throw (A B : Type) (f : A -> result B) (l : list A) : forall e,
  mapM f l = Throw e
  <-> exists before x after,
        l = before ++ x :: after
        /\ Forall (fun x' => exists y, f x' = Ok y) before
        /\ f x = Throw e.
Proof.
  induction l as [| x l IH]; intros e; cbn [mapM].
  - split; [discriminate |]. intros (before & x & after & E & _). now destruct before.
  - destruct (f x) as [y | e'] eqn:Ex.
    + destruct (mapM f l) as [ys' | e''] eqn:El.
      * split; [discriminate |].
        intros (before & x' & after & E & F & Hx).
        destruct before as [| b before]; cbn in E; inversion E; subst; [congruence |].
        inversion F; subst.
        assert (@Ok (list B) ys' = Throw e); [| discriminate].
        apply IH. now exists before, x', after.
      * split.
        -- intros H. inversion H; subst.
           destruct (proj1 (IH e) eq_refl) as (before & x' & after & E & F & Hx).
           exists (x :: before), x', after. subst l.
           split; [reflexivity |]. split; [constructor; eauto | exact Hx].
        -- intros (before & x' & after & E & F & Hx).
           destruct before as [| b before]; cbn in E; inversion E; subst; [congruence |].
           inversion F; subst.
           apply IH. now exists before, x', after.
    + split.
      * intros H. inversion H; subst. exists [], x, l. repeat split; [constructor | exact Ex].
      * intros (before & x' & after & E & F & Hx).
        destruct before as [| b before]; cbn in E; inversion E; subst; [congruence |].
        inversion F as [| ? ? (y & Hy) ?]; subst. congruence.
Qed.





(** X12: the outcomes of loading a store.  Loading never changes a file nor
    calls a service.  It fails with the error of the file system when the
    file is not there, with a [SyntaxError] when its text is not JSON, and
    with a [TypeError] when the document is not an array.  For an array it
    is all or nothing: it succeeds exactly when every element is read, and
    then gives one item for each element, in order; otherwise it fails with
    the error of the first element that cannot be read, and no item is
    returned. *)
Theorem loadEmbeddings_outcomes (rt : Runtime) (filePath : string) (w : world) :
  let r := fst (loadEmbeddings rt filePath w) in
  snd (loadEmbeddings rt filePath w) = w
  /\ (files w filePath = None -> r = Throw ENOENT)
  /\ (files w filePath = Some NotJSON -> r = Throw SyntaxError)
  /\ (forall text doc,
        files w filePath = Some (JSONText text doc) -> is_array doc = false ->
        r = Throw TypeError)
  /\ (forall text elems,
        files w filePath = Some (JSONText text (VArray elems)) ->
        (forall items,
           r = Ok items <-> Forall2 (fun e it => load_item rt e = Ok it) elems items)
        /\ (forall items, r = Ok items -> length items = length elems)
        /\ (forall x,
              r = Throw x
              <-> exists before e after,
                    elems = before ++ e :: after
                    /\ Forall (fun e' => exists it, load_item rt e' = Ok it) before
                    /\ load_item rt e = Throw x)).
Proof.
  cbv zeta. unfold loadEmbeddings, bind, readJSON, lift.
  destruct (files w filePath) as [[text doc |] |] eqn:Hf; cbn [fst snd].
  - split; [reflexivity |]. split; [discriminate |]. split; [discriminate |].
    split.
    + intros text' doc' E N. inversion E; subst.
      destruct doc'; cbn in N; try discriminate N; reflexivity.
    + intros text' elems E. inversion E; subst. cbn [load_items].
      split; [intros items; apply mapM_Ok |].
      split; [| intros x; apply mapM_Throw].
      intros items H. apply mapM_Ok in H. symmetry. eapply Forall2_length. exact H.
  - split; [reflexivity |]. split; [discriminate |]. split; [reflexivity |].
    split; discriminate.
  - split; [reflexivity |]. split; [reflexivity |]. split; [discriminate |].
    split; discriminate.
Qed.

Lemma loadEmbeddings_outcomes_witness :
  fst (loadEmbeddings two_chunks "store.json" empty_world) = Throw ENOENT.
Proof.
  apply (proj1 (proj2 (loadEmbeddings_outcomes two_chunks "store.json" empty_world))).
  reflexivity.
Defined.

(** ** Retrieval *)

Lemma load_world rt path w : snd (loadEmbeddings rt path w) = w.
Proof.
  unfold loadEmbeddings, bind, readJSON, lift.
  destruct (files w path) as [[text doc |] |]; reflexivity.
Qed.



Lemma slice0_prefix (A : Type) (l : list A) (k : number) : exists rest, l = slice0 l k ++ rest.
Proof. unfold slice0. eexists. symmetry. apply firstn_skipn. Qed.

Lemma slice0_cases (A : Type) (l : list A) (k : number) :
  match ToIntegerOrInfinity k with
  | Finite z =>
      if (z <? 0)%Z then slice0 l k = firstn (length l - Z.to_nat (- z)) l
      else slice0 l k = firstn (Z.to_nat z) l
  | PlusInfinity => slice0 l k = l
  | MinusInfinity => slice0 l k = []
  end.
Proof.
  unfold slice0. destruct (ToIntegerOrInfinity k) as [z | |].
  - destruct (Z.ltb_spec z 0).
    + f_equal. lia.
    + destruct (Z.le_ge_cases z (Z.of_nat (length l))).
      * f_equal. lia.
      * rewrite Z.min_r by lia. rewrite Nat2Z.id, firstn_all.
        symmetry. apply firstn_all2. lia.
  - rewrite Nat2Z.id. apply firstn_all.
  - reflexivity.
Qed.

(** X14: [TOP_K] values that are not a positive count.  The selection is
    always a prefix of the sorted records.  An empty [TOP_K] variable gives
    the default 9; a value that is not a number ([ten]) selects nothing, and
    so does 0; a negative integer [-n] drops the [n] last of the sorted
    records instead of keeping [n]; [Infinity] keeps them all.  The value is
    read as [Number] reads it, and truncated: [2.9] and [ 2 ] give 2, [0x10]
    gives 16 and [1e2] gives 100. *)
Theorem top_k_edges (env_TOP_K : option jsstring) (sims : list Sim) :
  let sorted := sort by_score sims in
  let top := top_of env_TOP_K sims in
  (exists rest, sorted = top ++ rest)
  /\ length top <= length sims
  /\ (env_TOP_K = Some [] -> TOP_K env_TOP_K = 9%float)
  /\ (is_nan (TOP_K env_TOP_K) = true -> top = [])
  /\ (forall z, ToIntegerOrInfinity (TOP_K env_TOP_K) = Finite z ->
        (z = 0%Z -> top = [])
        /\ ((z < 0)%Z -> top = firstn (length sims - Z.to_nat (- z)) sorted))
  /\ (ToIntegerOrInfinity (TOP_K env_TOP_K) = PlusInfinity -> top = sorted)
  /\ (ToIntegerOrInfinity (TOP_K env_TOP_K) = MinusInfinity -> top = [])
  /\ is_nan (TOP_K (Some (lit "ten"))) = true
  /\ ToIntegerOrInfinity (TOP_K (Some (lit "0"))) = Finite 0
  /\ ToIntegerOrInfinity (TOP_K (Some (lit "-1"))) = Finite (-1)
  /\ ToIntegerOrInfinity (TOP_K (Some (lit "2.9"))) = Finite 2
  /\ ToIntegerOrInfinity (TOP_K (Some (lit " 2 "))) = Finite 2
  /\ ToIntegerOrInfinity (TOP_K (Some (lit "Infinity"))) = PlusInfinity
  /\ ToIntegerOrInfinity (TOP_K (Some (lit "0x10"))) = Finite 16
  /\ ToIntegerOrInfinity (TOP_K (Some (lit "1e2"))) = Finite 100.
Proof.
  cbv zeta. unfold top_of.
  pose proof (slice0_cases (sort by_score sims) (TOP_K env_TOP_K)) as C.
  split; [apply slice0_prefix |].
  split.
  { destruct (slice0_prefix (sort by_score sims) (TOP_K env_TOP_K)) as (rest & E).
    rewrite <- (sort_length by_score sims). rewrite E at 2. rewrite length_app. lia. }
  split; [intros ->; reflexivity |].
  split.
  { intros H. apply is_nan_spec in H.
    assert (T : ToIntegerOrInfinity (TOP_K env_TOP_K) = Finite 0)
      by (unfold ToIntegerOrInfinity; now rewrite H).
    rewrite T in C. exact C. }
  split.
  { intros z Hz. rewrite Hz in C.
    split.
    - intros ->. cbn in C. exact C.
    - intros Hlt. destruct (Z.ltb_spec z 0); [| lia]. now rewrite sort_length in C. }
  split; [intros H; now rewrite H in C |].
  split; [intros H; now rewrite H in C |].
  repeat split; vm_compute; reflexivity.
Qed.

Lemma top_k_edges_witness :
  top_of (Some (lit "ten")) three_sims = []
  /\ top_of (Some (lit "-1")) three_sims = firstn 2 (sort by_score three_sims).
Proof.
  pose proof (top_k_edges (Some (lit "ten")) three_sims) as H. cbv zeta in H.
  destruct H as (_ & _ & _ & Hn & _).
  pose proof (top_k_edges (Some (lit "-1")) three_sims) as K. cbv zeta in K.
  destruct K as (_ & _ & _ & _ & Hz & _).
  split.
  - apply Hn. vm_compute. reflexivity.
  - apply (proj2 (Hz (-1)%Z ltac:(vm_compute; reflexivity))). lia.
Defined.

(** ** The command line *)

Lemma run_pipeline (m : M unit) w :
  match (bind m (fun _ => ret Returned)) w with
  | (Ok o, w') => (o, w')
  | (Throw _, w') => (Exited 1, w')
  end = (exit_of (fst (m w)), snd (m w)).
Proof. unfold bind, ret. destruct (m w) as [[[] | e] w']; reflexivity. Qed.

Lemma ingest_form_eqb args :
  jsstring_eqb (nth 0 args []) (lit "--ingest") && (3 <=? length args) = true
  <-> ingest_form args.
Proof.
  unfold ingest_form. rewrite andb_true_iff, jsstring_eqb_eq, Nat.leb_le. split.
  - intros [H L]. destruct args as [| a [| b [| c rest]]]; cbn in L; try lia.
    cbn in H. subst a. now exists b, c, rest.
  - intros (p & o & rest & ->). split; [reflexivity | cbn; lia].
Qed.

Lemma query_form_eqb args :
  jsstring_eqb (nth 0 args []) (lit "--query") && (2 <=? length args) = true
  <-> query_form args.
Proof.
  unfold query_form. rewrite andb_true_iff, jsstring_eqb_eq, Nat.leb_le. split.
  - intros [H L]. destruct args as [| a [| b rest]]; cbn in L; try lia.
    cbn in H. subst a. now exists b, rest.
  - intros (q & rest & ->). split; [reflexivity | cbn; lia].
Qed.

(** X15: the program run with arguments.  With [--ingest] and at least two
    more arguments it runs the ingestion on the first two, and with
    [--query] and at least one more argument it runs the query on the
    question, with the store named by the next argument or, when that is
    absent or empty, [./embeddings.json]; further arguments are ignored.  In
    both cases the process exits with status 1 exactly when the pipeline
    fails, and the files and calls are those of the pipeline.  Any other
    list of arguments, [--ingest] with one path only for instance, exits
    with status 1 without touching a file or calling a service. *)
Theorem batch_mode (rt : Runtime) (env_TOP_K : option jsstring) (t : Terminal)
  (args : list jsstring) (w : world) :
  args <> [] ->
  (forall pdfPath outputPath rest,
     args = lit "--ingest" :: pdfPath :: outputPath :: rest ->
     let r := ingestPDF rt (path_of t pdfPath) (path_of t outputPath) w in
     run rt env_TOP_K t args w = (exit_of (fst r), snd r))
  /\ (forall question rest,
        args = lit "--query" :: question :: rest ->
        let r := queryEmbeddings rt env_TOP_K question
                   (path_of t (or_default (hd_error rest))) w in
        run rt env_TOP_K t args w = (exit_of (fst r), snd r)
        /\ (rest = [] \/ hd_error rest = Some [] ->
            or_default (hd_error rest) = lit "./embeddings.json"))
  /\ (~ ingest_form args -> ~ query_form args ->
      run rt env_TOP_K t args w = (Exited 1, w))
  /\ (fst (run rt env_TOP_K t args w) = Returned
      -> ingest_form args \/ query_form args).
Proof.
  intros Hne.
  assert (L : Nat.eqb (length args) 0 = false) by (destruct args; [congruence | reflexivity]).
  split; [| split; [| split]].
  - intros p o rest -> r. unfold run, main. cbn [length Nat.eqb nth].
    replace (jsstring_eqb (lit "--ingest") (lit "--ingest")) with true by reflexivity.
    cbn [andb Nat.leb]. apply run_pipeline.
  - intros q rest -> r. split.
    + unfold run, main. cbn [length Nat.eqb nth nth_error].
      replace (jsstring_eqb (lit "--query") (lit "--ingest")) with false by reflexivity.
      replace (jsstring_eqb (lit "--query") (lit "--query")) with true by reflexivity.
      cbn [andb Nat.leb].
      replace (nth_error rest 0) with (hd_error rest) by (now destruct rest).
      apply run_pipeline.
    + intros [-> | H]; [reflexivity | now rewrite H].
  - intros Hi Hq. unfold run, main. rewrite L.
    destruct (jsstring_eqb (nth 0 args []) (lit "--ingest") && (3 <=? length args)) eqn:Ei.
    { apply ingest_form_eqb in Ei. contradiction. }
    destruct (jsstring_eqb (nth 0 args []) (lit "--query") && (2 <=? length args)) eqn:Eq.
    { apply query_form_eqb in Eq. contradiction. }
    reflexivity.
  - unfold run, main. rewrite L.
    destruct (jsstring_eqb (nth 0 args []) (lit "--ingest") && (3 <=? length args)) eqn:Ei.
    { intros _. left. now apply ingest_form_eqb. }
    destruct (jsstring_eqb (nth 0 args []) (lit "--query") && (2 <=? length args)) eqn:Eq.
    { intros _. right. now apply query_form_eqb. }
    cbn. discriminate.
Qed.

Lemma batch_mode_witness :
  run two_chunks None (typed []) [lit "--help"] empty_world = (Exited 1, empty_world)
  /\ run two_chunks None (typed []) [lit "--ingest"; lit "in.pdf"] empty_world
     = (Exited 1, empty_world).
Proof.
  split.
  - apply (proj1 (proj2 (proj2 (@batch_mode two_chunks None (typed []) [lit "--help"]
                                  empty_world ltac:(discriminate))))).
    + intros (p & o & rest & H). discriminate H.
    + intros (q & rest & H). discriminate H.
  - apply (proj1 (proj2 (proj2 (@batch_mode two_chunks None (typed [])
                                  [lit "--ingest"; lit "in.pdf"]
                                  empty_world ltac:(discriminate))))).
    + intros (p & o & rest & H). discriminate H.
    + intros (q & rest & H). vm_compute in H. discriminate H.
Defined.

Lemma attempt_run (m : M unit) w : attempt m w = (Ok tt, snd (m w)).
Proof. unfold attempt. destruct (m w) as [[[] | e] w']; reflexivity. Qed.

Lemma ingest_files rt pdfPath outputPath w p :
  p <> outputPath -> files (snd (ingestPDF rt pdfPath outputPath w)) p = files w p.
Proof.
  intros Hp. destruct (ingestPDF rt pdfPath outputPath w) as [r w'] eqn:H. cbn [snd].
  ingest_run H;
    first [reflexivity
          | destruct (String.eqb_spec p outputPath); [contradiction | reflexivity]].
Qed.

Lemma query_files rt env question path w :
  files (snd (queryEmbeddings rt env question path w)) = files w.
Proof.
  unfold queryEmbeddings. unfold bind at 1.
  pose proof (load_world rt path w) as Hw.
  destruct (loadEmbeddings rt path w) as [[items | e] w0]; cbn [snd] in *; subst w0;
    [| reflexivity].
  unfold bind, call, throw, ret. cbn [files calls].
  destruct (embedQuery rt question) as [q | e]; [| reflexivity].
  destruct (bad_query_embedding q); [reflexivity |].
  destruct (llm_invoke rt _); reflexivity.
Qed.

Lemma interactive_cases rt env t w :
  interactiveCLI rt env t w
  = (Ok tt,
     if jsstring_eqb (trim (answer t 0)) (lit "1")
     then snd (ingestPDF rt (path_of t (answer t 1))
                 (path_of t (or_default (Some (answer t 2)))) w)
     else if jsstring_eqb (trim (answer t 0)) (lit "2")
     then snd (queryEmbeddings rt env (answer t 2)
                 (path_of t (or_default (Some (answer t 1)))) w)
     else w).
Proof.
  unfold interactiveCLI.
  destruct (jsstring_eqb (trim (answer t 0)) (lit "1")); [apply attempt_run |].
  destruct (jsstring_eqb (trim (answer t 0)) (lit "2")); [apply attempt_run |].
  reflexivity.
Qed.

Lemma run_interactive rt env t w :
  run rt env t [] w = (Returned, snd (interactiveCLI rt env t w)).
Proof.
  unfold run, main. cbn [length Nat.eqb]. unfold bind, ret.
  now rewrite interactive_cases.
Qed.

(** X16: the program run without arguments.  It asks for a choice, read up
    to the whitespace around it, and never ends with status 1: an error of
    the ingestion or of the query is caught.  Choice 1 runs the ingestion
    on the two paths typed, choice 2 the query on the store and the question
    typed, an empty path standing for [./embeddings.json]; any other choice
    touches no file and calls no service.  Only choice 1 can change a file,
    and no file other than the output file. *)
Theorem interactive_mode (rt : Runtime) (env_TOP_K : option jsstring) (t : Terminal)
  (w : world) :
  let choice := trim (answer t 0) in
  let w' := snd (run rt env_TOP_K t [] w) in
  fst (run rt env_TOP_K t [] w) = Returned
  /\ (choice = lit "1" ->
      w' = snd (ingestPDF rt (path_of t (answer t 1))
                  (path_of t (or_default (Some (answer t 2)))) w))
  /\ (choice = lit "2" ->
      w' = snd (queryEmbeddings rt env_TOP_K (answer t 2)
                  (path_of t (or_default (Some (answer t 1)))) w))
  /\ (choice <> lit "1" -> choice <> lit "2" -> w' = w)
  /\ (choice <> lit "1" -> files w' = files w)
  /\ (forall p, p <> path_of t (or_default (Some (answer t 2))) -> files w' p = files w p).
Proof.
  cbv zeta. rewrite run_interactive, interactive_cases. cbn [fst snd].
  destruct (jsstring_eqb (trim (answer t 0)) (lit "1")) eqn:E1.
  { apply jsstring_eqb_eq in E1. rewrite E1.
    split; [reflexivity |]. split; [reflexivity |].
    split; [intros H; inversion H |]. split; [congruence |].
    split; [congruence |]. intros p Hp. now apply ingest_files. }
  destruct (jsstring_eqb (trim (answer t 0)) (lit "2")) eqn:E2.
  { apply jsstring_eqb_eq in E2. rewrite E2.
    split; [reflexivity |]. split; [intros H; inversion H |].
    split; [reflexivity |]. split; [congruence |].
    split; [intros _; apply query_files |]. intros p _. now rewrite query_files. }
  split; [reflexivity |].
  split; [intros H; rewrite H in E1; discriminate |].
  split; [intros H; rewrite H in E2; discriminate |].
  repeat split; reflexivity.
Qed.

Lemma interactive_mode_witness :
  fst (run two_chunks None (typed ["3"%string]) [] empty_world) = Returned
  /\ snd (run two_chunks None (typed ["3"%string]) [] empty_world) = empty_world.
Proof.
  pose proof (interactive_mode two_chunks None (typed ["3"%string]) empty_world) as H.
  cbv zeta in H. destruct H as (H1 & _ & _ & H4 & _).
  split; [exact H1 |].
  apply H4; intros E; vm_compute in E; discriminate E.
Defined.
